(** * Page enhancements of the 2026 site: a shallow embedding of [src/2026/script.js]

    The script instantiates five independent components once the document is
    loaded: [LanguageManager], [ThemeManager], [MobileMenu], [SmoothScroll]
    and [ScrollAnimations].  Each is embedded below in a module of its own:
    the fields of the class and the part of the browser state it reads or
    writes become a record, every method and every event listener becomes a
    function on that record.

    Conventions shared by the modules:
    - strings are [string]; [localStorage], attribute lists and inline styles
      are finite maps from strings to strings, class lists are finite sets;
    - [getItem] and [getAttribute] return [option string] ([None] is the
      script's [null]);
    - a JavaScript condition on a string is its truthiness ([truthy]): the
      empty string counts as false, like [null]. *)

From Stdlib Require Import ZArith.
From stdpp Require Import gmap strings list.

Local Open Scope string_scope.

(** ** JavaScript values used by the script *)

Module Js.

(** Truthiness of a string: only the empty string is falsy. *)
Definition truthy (s : string) : bool :=
  match s with
  | EmptyString => false
  | String _ _ => true
  end.

(** Truthiness of a [string | null] value. *)
Definition truthy_opt (v : option string) : bool :=
  match v with
  | Some s => truthy s
  | None => false
  end.

(** [a === b] on strings. *)
Definition strict_eq (a b : string) : bool := String.eqb a b.

(** [String(b)] for a boolean, as [setAttribute] stringifies its value. *)
Definition string_of_bool (b : bool) : string :=
  if b then "true" else "false".

End Js.

(** ** The persisted key-value store ([window.localStorage]) *)

Module Storage.

Abbreviation t := (gmap string string).

Definition getItem (key : string) (ls : t) : option string := ls !! key.

Definition setItem (key value : string) (ls : t) : t := <[key := value]> ls.

End Storage.

(** ** The part of the DOM the script touches *)

Module Dom.

(** An element, with the properties the script reads or writes.  Elements
    are handled by their position in the document.  The text of an element
    is a property of its own ([textContent]): the nesting of elements is
    not part of the model, so a write to the text of one element leaves the
    others as they are. *)
Record element := mkElement {
  tagName : string;
  attrs : gmap string string;
  classList : gset string;
  style : gmap string string;
  textContent : string;
  placeholder : string
}.

(** The document: its elements in document order. *)
Abbreviation document := (list element).

Definition getAttribute (name : string) (el : element) : option string :=
  attrs el !! name.

Definition hasAttribute (name : string) (el : element) : bool :=
  bool_decide (is_Some (attrs el !! name)).

Definition setAttribute (name value : string) (el : element) : element :=
  mkElement (tagName el) (<[name := value]> (attrs el)) (classList el)
    (style el) (textContent el) (placeholder el).

Definition setTextContent (text : string) (el : element) : element :=
  mkElement (tagName el) (attrs el) (classList el) (style el) text
    (placeholder el).

Definition setPlaceholder (text : string) (el : element) : element :=
  mkElement (tagName el) (attrs el) (classList el) (style el)
    (textContent el) text.

Definition setStyle (prop value : string) (el : element) : element :=
  mkElement (tagName el) (attrs el) (classList el)
    (<[prop := value]> (style el)) (textContent el) (placeholder el).

Definition setClassList (cl : gset string) (el : element) : element :=
  mkElement (tagName el) (attrs el) cl (style el) (textContent el)
    (placeholder el).

(** [classList.contains], [.add], [.remove] and [.toggle]. *)
Definition classList_contains (cls : string) (el : element) : bool :=
  bool_decide (cls ∈ classList el).

Definition classList_add (cls : string) (el : element) : element :=
  setClassList ({[cls]} ∪ classList el) el.

Definition classList_remove (cls : string) (el : element) : element :=
  setClassList (classList el ∖ {[cls]}) el.

Definition classList_toggle (cls : string) (el : element) : element :=
  if classList_contains cls el
  then classList_remove cls el
  else classList_add cls el.

(** An element with its class list forgotten: what is left when only the
    classes changed. *)
Definition withoutClasses (el : element) : element := setClassList ∅ el.

(** Positions, from [i] on, of the elements a selector matches. *)
Fixpoint matchingFrom (sel : element → bool) (i : nat) (doc : document)
    : list nat :=
  match doc with
  | [] => []
  | el :: rest =>
      if sel el then i :: matchingFrom sel (S i) rest
      else matchingFrom sel (S i) rest
  end.

(** [document.querySelectorAll(sel)]: the matches in document order. *)
Definition querySelectorAll (sel : element → bool) (doc : document)
    : list nat :=
  matchingFrom sel 0 doc.

(** [document.querySelector(sel)]: the first match, or [null]. *)
Definition querySelector (sel : element → bool) (doc : document)
    : option nat :=
  head (querySelectorAll sel doc).

(** A mutation of the element at position [i]. *)
Definition update (i : nat) (f : element → element) (doc : document)
    : document :=
  alter f i doc.

(** [nodes.forEach(el => ...)] for a callback that mutates [el]. *)
Definition forEach (nodes : list nat) (f : element → element)
    (doc : document) : document :=
  foldl (λ d i, update i f d) doc nodes.

(** The selector [.cls]. *)
Definition byClass (cls : string) (el : element) : bool :=
  classList_contains cls el.

(** Reads through a position; an absent element has no class and no
    attribute. *)
Definition hasClass (cls : string) (i : nat) (doc : document) : bool :=
  match doc !! i with
  | Some el => classList_contains cls el
  | None => false
  end.

Definition attribute (name : string) (i : nat) (doc : document)
    : option string :=
  doc !! i ≫= getAttribute name.

Definition styleOf (prop : string) (i : nat) (doc : document)
    : option string :=
  doc !! i ≫= λ el, style el !! prop.

End Dom.

(** ** Language Switcher *)

Module LanguageManager.

Import Js Storage Dom.

(** The [currentLang] field, [localStorage], the [lang] property of
    [document.documentElement], the document, and whether [init] found
    [.lang-switch] and attached the click listener to it. *)
Record state := {
  currentLang : string;
  localStorage : gmap string string;
  rootLang : string;
  doc : list element;
  switchAttached : bool
}.

(** The selector [[data-fr][data-en]]. *)
Definition localized (el : element) : bool :=
  hasAttribute "data-fr" el && hasAttribute "data-en" el.

(** The callback of [elements.forEach], lines 32-44.  The attribute is
    looked up under the name as written, which is how the browser reads
    the lower-case languages the script itself sets, ["fr"] and ["en"]. *)
Definition translate (lang : string) (el : element) : element :=
  match getAttribute ("data-" +:+ lang) el with
  | Some text =>
      if truthy text then
        if strict_eq (tagName el) "INPUT" || strict_eq (tagName el) "TEXTAREA"
        then setPlaceholder text el
        else if strict_eq (tagName el) "BUTTON"
        then setTextContent text el
        else setTextContent text el
      else el
  | None => el
  end.

(** [updateLanguageButton()], lines 50-63, for the language [lang] held
    by [this.currentLang]. *)
Definition updateLanguageButton (lang : string) (d : list element)
    : list element :=
  match querySelector (byClass "lang-fr") d,
        querySelector (byClass "lang-en") d with
  | Some langFr, Some langEn =>
      if strict_eq lang "fr"
      then update langEn (classList_remove "active")
             (update langFr (classList_add "active") d)
      else update langEn (classList_add "active")
             (update langFr (classList_remove "active") d)
  | _, _ => d
  end.

(** [setLanguage(lang)], lines 25-48. *)
Definition setLanguage (lang : string) (st : state) : state :=
  let elements := querySelectorAll localized (doc st) in
  let d := forEach elements (translate lang) (doc st) in
  {| currentLang := lang;
     localStorage := setItem "lang" lang (localStorage st);
     rootLang := lang;
     doc := updateLanguageButton lang d;
     switchAttached := switchAttached st |}.

(** The click listener of [.lang-switch], lines 18-21. *)
Definition onSwitchClick (st : state) : state :=
  let newLang := if strict_eq (currentLang st) "fr" then "en" else "fr" in
  setLanguage newLang st.

(** [localStorage.getItem('lang') || 'fr'] *)
Definition initialLang (ls : gmap string string) : string :=
  match getItem "lang" ls with
  | Some s => if truthy s then s else "fr"
  | None => "fr"
  end.

(** [new LanguageManager()], lines 5-23. *)
Definition construct (ls : gmap string string) (root : string)
    (d : list element) : state :=
  let lang := initialLang ls in
  let st := setLanguage lang
    {| currentLang := lang; localStorage := ls; rootLang := root;
       doc := d; switchAttached := false |} in
  {| currentLang := currentLang st;
     localStorage := localStorage st;
     rootLang := rootLang st;
     doc := doc st;
     switchAttached :=
       bool_decide (is_Some (querySelector (byClass "lang-switch") (doc st))) |}.

(** A click on [.lang-switch] reaches the listener only if it exists. *)
Definition clickSwitch (st : state) : state :=
  if switchAttached st then onSwitchClick st else st.


(** A heading and a search field, translated in both languages. *)
Definition heading : element :=
  mkElement "H1" {[ "data-fr" := "Bonjour"; "data-en" := "Hello" ]}
    ∅ ∅ "Hello" "".

Definition searchField : element :=
  mkElement "INPUT" {[ "data-fr" := "Chercher"; "data-en" := "Search" ]}
    ∅ ∅ "" "Search".

(** A badge shown in English only: its French text is empty. *)
Definition badge : element :=
  mkElement "SPAN" {[ "data-fr" := ""; "data-en" := "New" ]} ∅ ∅ "New" "".


End LanguageManager.

(** ** Theme Manager (dark / light mode) *)

Module ThemeManager.

Import Js Storage.

(** What the page offers to the component and what never changes during
    its life: whether [.theme-toggle] exists, and [window.matchMedia]
    ([None] when the browser lacks it, otherwise the [matches] flag of
    [(prefers-color-scheme: dark)] at load time). *)
Record env := {
  themeToggle : bool;
  matchMedia : option bool
}.

(** The mutable state: the [currentTheme] field of the object, the
    attributes of [document.documentElement], and [localStorage]. *)
Record state := {
  currentTheme : string;
  rootAttrs : gmap string string;
  localStorage : gmap string string
}.

(** [window.matchMedia && window.matchMedia('(prefers-color-scheme: dark)').matches] *)
Definition prefersDark (e : env) : bool :=
  match matchMedia e with
  | Some matches => matches
  | None => false
  end.

(** [getInitialTheme()], lines 75-88. *)
Definition getInitialTheme (e : env) (ls : gmap string string) : string :=
  let savedTheme := getItem "theme" ls in
  match savedTheme with
  | Some s =>
      if truthy s then s
      else if prefersDark e then "dark" else "light"
  | None =>
      if prefersDark e then "dark" else "light"
  end.

(** [setTheme(theme)], lines 106-110. *)
Definition setTheme (theme : string) (st : state) : state :=
  {| currentTheme := theme;
     rootAttrs := <["data-theme" := theme]> (rootAttrs st);
     localStorage := setItem "theme" theme (localStorage st) |}.

(** The click listener of [.theme-toggle], lines 99-102. *)
Definition onToggleClick (st : state) : state :=
  let newTheme :=
    if strict_eq (currentTheme st) "light" then "dark" else "light" in
  setTheme newTheme st.

(** The [change] listener of the media query, lines 115-120. *)
Definition onSystemChange (matches : bool) (st : state) : state :=
  if negb (truthy_opt (getItem "theme" (localStorage st)))
  then setTheme (if matches then "dark" else "light") st
  else st.


(** [new ThemeManager()]: the constructor resolves the theme and [init]
    applies it (lines 70-73 and 90-94).  The two listeners are attached
    by [init] when their targets exist; [dispatch] below consults [env]
    for that. *)
Definition construct (e : env) (root : gmap string string)
    (ls : gmap string string) : state :=
  let theme := getInitialTheme e ls in
  setTheme theme
    {| currentTheme := theme; rootAttrs := root; localStorage := ls |}.

(** Events the component can receive after construction. *)
Inductive event :=
| ToggleClick
| SystemChange (matches : bool).

(** Delivery of an event: a listener runs only if [init] attached it. *)
Definition dispatch (e : env) (ev : event) (st : state) : state :=
  match ev with
  | ToggleClick => if themeToggle e then onToggleClick st else st
  | SystemChange matches =>
      match matchMedia e with
      | Some _ => onSystemChange matches st
      | None => st
      end
  end.

Definition run (e : env) (evs : list event) (st : state) : state :=
  foldl (λ s ev, dispatch e ev s) st evs.

(** The applied theme: the [data-theme] attribute of the root element. *)
Definition appliedTheme (st : state) : option string :=
  rootAttrs st !! "data-theme".

Definition persistedTheme (st : state) : option string :=
  getItem "theme" (localStorage st).

(** The theme an operating-system notification reports. *)
Definition systemTheme (matches : bool) : string :=
  if matches then "dark" else "light".

(** A page with a toggle, on a system that does not ask for dark. *)
Definition lightEnv : env := {| themeToggle := true; matchMedia := Some false |}.

(** The condition the [change] listener tests: a non-empty theme is in the
    store. *)
Definition themeStored (st : state) : Prop :=
  truthy_opt (persistedTheme st) = true.

End ThemeManager.

(** ** Mobile Menu *)

Module MobileMenu.

Import Js Dom.

(** The [toggle] and [menu] fields (positions in the document, [None] for
    [null]) and the document. *)
Record state := {
  toggle : option nat;
  menu : option nat;
  doc : list element
}.

(** The constructor, lines 129-133. *)
Definition construct (d : list element) : state :=
  {| toggle := querySelector (byClass "mobile-menu-toggle") d;
     menu := querySelector (byClass "nav-menu") d;
     doc := d |}.

(** [toggleMenu()], lines 165-170, on the elements at [t] and [m]. *)
Definition toggleMenu (t m : nat) (d : list element) : list element :=
  let d1 := update m (classList_toggle "active") d in
  let d2 := update t (classList_toggle "active") d1 in
  update t
    (setAttribute "aria-expanded" (string_of_bool (hasClass "active" m d2)))
    d2.

(** [closeMenu()], lines 172-176. *)
Definition closeMenu (t m : nat) (d : list element) : list element :=
  let d1 := update m (classList_remove "active") d in
  let d2 := update t (classList_remove "active") d1 in
  update t (setAttribute "aria-expanded" "false") d2.

(** A click bubbles from its target to the document.  Of the nodes it
    passes, the component cares about the toggle, the menu, and the links
    of the menu. *)
Inductive node :=
| ToggleNode
| MenuNode
| LinkNode
| OtherNode.

#[global] Instance node_eq_dec : EqDecision node.
Proof. solve_decision. Defined.

Inductive event :=
| Click (path : list node)
| Resize (innerWidth : Z).

(** The listener attached to a node of the path, lines 138-140 and
    151-155. *)
Definition nodeListener (t m : nat) (n : node) (d : list element)
    : list element :=
  match n with
  | ToggleNode => toggleMenu t m d
  | LinkNode => closeMenu t m d
  | MenuNode | OtherNode => d
  end.

(** The click listener of the document, lines 143-147:
    [toggle.contains(e.target)] holds when the path passes the toggle. *)
Definition documentListener (t m : nat) (path : list node)
    (d : list element) : list element :=
  if negb (bool_decide (ToggleNode ∈ path))
     && negb (bool_decide (MenuNode ∈ path))
  then closeMenu t m d
  else d.

(** The resize listener of the window, lines 158-162. *)
Definition resizeListener (t m : nat) (innerWidth : Z) (d : list element)
    : list element :=
  if (767 <? innerWidth)%Z then closeMenu t m d else d.

(** Delivery of an event.  [init] returns before attaching anything when
    the toggle or the menu is missing (line 136). *)
Definition dispatch (ev : event) (st : state) : state :=
  match toggle st, menu st with
  | Some t, Some m =>
      let d :=
        match ev with
        | Click path =>
            documentListener t m path
              (foldl (λ d n, nodeListener t m n d) (doc st) path)
        | Resize w => resizeListener t m w (doc st)
        end in
      {| toggle := toggle st; menu := menu st; doc := d |}
  | _, _ => st
  end.

Definition run (evs : list event) (st : state) : state :=
  foldl (λ s ev, dispatch ev s) st evs.

(** *** The state machine of the specification

    Two states, closed ([false]) and open ([true]); a click on the trigger
    toggles, a click outside, a click on a link of the panel and a resize
    to a width of at least 768 close. *)
Inductive transition :=
| TriggerClick
| OutsideClick
| LinkClick
| ResizeTo (width : Z).

Definition spec_step (open : bool) (tr : transition) : bool :=
  match tr with
  | TriggerClick => negb open
  | OutsideClick => false
  | LinkClick => false
  | ResizeTo width => if (768 <=? width)%Z then false else open
  end.

Definition spec_run (trs : list transition) (open : bool) : bool :=
  foldl spec_step open trs.

(** The browser event behind each transition. *)
Definition event_of (tr : transition) : event :=
  match tr with
  | TriggerClick => Click [ToggleNode]
  | OutsideClick => Click [OtherNode]
  | LinkClick => Click [LinkNode; MenuNode]
  | ResizeTo width => Resize width
  end.

(** The toggle and the menu are two elements of the document. *)
Definition placed (t m : nat) (d : list element) : Prop :=
  t ≠ m ∧ is_Some (d !! t) ∧ is_Some (d !! m).

(** The three indicators of the DOM show the state [open]. *)
Definition shows (open : bool) (t m : nat) (d : list element) : Prop :=
  hasClass "active" t d = open
  ∧ hasClass "active" m d = open
  ∧ attribute "aria-expanded" t d = Some (string_of_bool open).

(** A header with a closed menu: the button, then the panel. *)
Definition menuButton : element :=
  mkElement "BUTTON" {[ "aria-expanded" := "false" ]}
    {[ "mobile-menu-toggle" ]} ∅ "" "".

Definition menuPanel : element :=
  mkElement "UL" ∅ {[ "nav-menu" ]} ∅ "" "".

Definition header : list element := [menuButton; menuPanel].

End MobileMenu.

(** ** Smooth Scroll *)

Module SmoothScroll.

Import Js.

(** The element a selector finds, with [getBoundingClientRect().top].
    Lengths are whole numbers of layout units here. *)
Record target := { boundingTop : Z }.

(** The outcome of [document.querySelector(s)] for a string [s] chosen at
    run time: a [SyntaxError] when [s] is not a valid selector, [null], or
    the first matching element. *)
Inductive lookup :=
| SyntaxError
| NoMatch
| Match (el : target).

(** The page at the time of the click. *)
Record page := {
  querySelector : string → lookup;
  pageYOffset : Z
}.

Record scrollToOptions := { top : Z; behavior : string }.

(** What a listener did: whether it called [e.preventDefault()], and the
    calls of [window.scrollTo]. *)
Record effects := {
  defaultPrevented : bool;
  scrollRequests : list scrollToOptions
}.

(** How a listener ended: it returned, or an exception left it. *)
Inductive completion :=
| Return (fx : effects)
| Throw (exn : string) (fx : effects).

(** The click listener of an anchor, lines 190-211. *)
Definition onAnchorClick (pg : page) (href : string) : completion :=
  if strict_eq href "#" then
    Return {| defaultPrevented := true; scrollRequests := [] |}
  else
    match querySelector pg href with
    | SyntaxError =>
        Throw "SyntaxError" {| defaultPrevented := false; scrollRequests := [] |}
    | NoMatch =>
        Return {| defaultPrevented := false; scrollRequests := [] |}
    | Match el =>
        let headerOffset := 80%Z in
        let elementPosition := boundingTop el in
        let offsetPosition :=
          (elementPosition + pageYOffset pg - headerOffset)%Z in
        Return {| defaultPrevented := true;
                  scrollRequests :=
                    [ {| top := offsetPosition; behavior := "smooth" |} ] |}
    end.

(** A click on an anchor: [init] attached the listener to the anchors
    matching [a[href^="#"]] only (line 189). *)
Definition clickAnchor (pg : page) (href : string) : completion :=
  if String.prefix "#" href then onAnchorClick pg href
  else Return {| defaultPrevented := false; scrollRequests := [] |}.

Definition throws (c : completion) : bool :=
  match c with
  | Return _ => false
  | Throw _ _ => true
  end.

(** A page with one section, [id="services"], 640 units below the top of
    the viewport, scrolled by 120 units.  It has no other element with an
    id.  Neither ["#"] nor ["#1"] is a valid selector: an id selector needs
    a name, and the name cannot begin with a digit. *)
Definition servicesPage : page :=
  {| querySelector := λ s,
       if strict_eq s "#services" then Match {| boundingTop := 640 |}
       else if strict_eq s "#" || strict_eq s "#1" then SyntaxError
       else NoMatch;
     pageYOffset := 120 |}.

End SmoothScroll.

(** ** Intersection Observer for Animations *)

Module ScrollAnimations.

Import Js Dom.

Definition cardClasses : list string :=
  [ "stat-card"; "benefit-card"; "highlight-card"; "testimonial-card";
    "package-card"; "why-card"; "contact-card" ].

(** The selector list of lines 240-248. *)
Definition card (el : element) : bool :=
  existsb (λ cls, classList_contains cls el) cardClasses.

(** The callback of [elementsToAnimate.forEach], lines 250-255. *)
Definition arm (el : element) : element :=
  setStyle "transition" "opacity 0.6s ease, transform 0.6s ease"
    (setStyle "transform" "translateY(20px)"
      (setStyle "opacity" "0" el)).

(** [init()], lines 224-256. *)
Definition init (d : list element) : list element :=
  let elementsToAnimate := querySelectorAll card d in
  forEach elementsToAnimate arm d.

(** An [IntersectionObserverEntry]. *)
Record entry := { target : nat; isIntersecting : bool }.

Definition reveal (el : element) : element :=
  setStyle "transform" "translateY(0)" (setStyle "opacity" "1" el).

(** The callback of the observer, lines 230-237. *)
Definition onIntersection (entries : list entry) (d : list element)
    : list element :=
  foldl (λ d e, if isIntersecting e then update (target e) reveal d else d)
    d entries.

(** The callbacks of a page life, one per batch of entries. *)
Definition run (batches : list (list entry)) (d : list element)
    : list element :=
  foldl (λ d entries, onIntersection entries d) d batches.

(** The two looks of a card: armed and waiting, and revealed. *)
Definition hidden (i : nat) (d : list element) : Prop :=
  styleOf "opacity" i d = Some "0"
  ∧ styleOf "transform" i d = Some "translateY(20px)".

Definition revealed (i : nat) (d : list element) : Prop :=
  styleOf "opacity" i d = Some "1"
  ∧ styleOf "transform" i d = Some "translateY(0)".

(** Some entry so far reported the element at [i] as intersecting. *)
Definition wasSeen (i : nat) (batches : list (list entry)) : bool :=
  existsb (λ e, bool_decide (target e = i) && isIntersecting e)
    (concat batches).

(** A page with a paragraph and one card. *)
Definition cardPage : list element :=
  [ mkElement "P" ∅ ∅ ∅ "" "";
    mkElement "DIV" ∅ {[ "stat-card" ]} ∅ "" "" ].

End ScrollAnimations.

(** ** Observations on the components *)

Module Observe.

Import Js Dom.

(** What a listener did before it ended, however it ended. *)
Definition effectsOf (c : SmoothScroll.completion) : SmoothScroll.effects :=
  match c with
  | SmoothScroll.Return fx => fx
  | SmoothScroll.Throw _ fx => fx
  end.

(** Two versions of an element that differ at most in the class [active]
    and in the attribute [aria-expanded]. *)
Definition sameButMenuState (el el' : element) : Prop :=
  tagName el' = tagName el
  ∧ style el' = style el
  ∧ textContent el' = textContent el
  ∧ placeholder el' = placeholder el
  ∧ classList el' ∖ {[ "active" ]} = classList el ∖ {[ "active" ]}
  ∧ delete "aria-expanded" (attrs el') = delete "aria-expanded" (attrs el).

(** A step on the document that is local to the elements at [t] and [m]:
    it leaves every other element as it is, and changes these two in their
    menu state at most. *)
Definition localStep (t m : nat) (F : list element → list element) : Prop :=
  ∀ (d : list element) (j : nat),
    (j ≠ t → j ≠ m → F d !! j = d !! j)
    ∧ (∀ el, d !! j = Some el →
         ∃ el', F d !! j = Some el' ∧ sameButMenuState el el').

(** Two versions of an element that differ at most in their inline
    style. *)
Definition sameButStyle (el el' : element) : Prop :=
  tagName el' = tagName el
  ∧ attrs el' = attrs el
  ∧ classList el' = classList el
  ∧ textContent el' = textContent el
  ∧ placeholder el' = placeholder el.

(** A page with a styled paragraph and two cards, one of them styled. *)
Definition note : element :=
  mkElement "P" ∅ ∅ {[ "color" := "red" ]} "" "".

Definition statCard : element :=
  mkElement "DIV" ∅ {[ "stat-card" ]} ∅ "" "".

Definition wideCard : element :=
  mkElement "DIV" ∅ {[ "why-card"; "wide" ]}
    {[ "color" := "blue"; "opacity" := "0.5" ]} "" "".

Definition styledCards : list element := [note; statCard; wideCard].

(** What [setLanguage] does to one element: the [forEach] callback when
    the selector matches it, then the update of the indicator when it is
    one of the two markers (at [langFr] and [langEn]). *)
Definition translated (lang : string) (el : element) : element :=
  if LanguageManager.localized el then LanguageManager.translate lang el
  else el.

Definition marked (lang : string) (langFr langEn j : nat) (el : element)
    : element :=
  let el1 :=
    if decide (langFr = j)
    then (if strict_eq lang "fr"
          then classList_add "active" el
          else classList_remove "active" el)
    else el in
  if decide (langEn = j)
  then (if strict_eq lang "fr"
        then classList_remove "active" el1
        else classList_add "active" el1)
  else el1.

Definition relabelled (lang : string) (markers : option nat * option nat)
    (j : nat) (el : element) : element :=
  match markers with
  | (Some langFr, Some langEn) => marked lang langFr langEn j (translated lang el)
  | _ => translated lang el
  end.

(** The two markers of a document, as [updateLanguageButton] looks them
    up. *)
Definition markersOf (d : list element) : option nat * option nat :=
  (querySelector (byClass "lang-fr") d, querySelector (byClass "lang-en") d).

(** A page with a language switch, its two markers, and three texts. *)
Definition langSwitch : element :=
  mkElement "BUTTON" ∅ {[ "lang-switch" ]} ∅ "" "".

Definition markerFr : element :=
  mkElement "SPAN" ∅ {[ "lang-fr"; "active" ]} ∅ "FR" "".

Definition markerEn : element :=
  mkElement "SPAN" ∅ {[ "lang-en" ]} ∅ "EN" "".

Definition bilingual : list element :=
  [ langSwitch; markerFr; markerEn; LanguageManager.heading;
    LanguageManager.searchField; LanguageManager.badge ].

(** A header whose indicators disagree: the panel is marked open, the
    button is not, and the button has no [aria-expanded]. *)
Definition tornHeader : list element :=
  [ mkElement "BUTTON" ∅ {[ "mobile-menu-toggle" ]} ∅ "" "";
    mkElement "UL" ∅ {[ "nav-menu"; "active" ]} ∅ "" "" ].

(** A page whose menu markup is incomplete: a button, no panel. *)
Definition buttonOnly : list element := [MobileMenu.menuButton].

(** The header with a logo in front and the menu left open. *)
Definition openHeader : list element :=
  [ mkElement "IMG" {[ "alt" := "logo" ]} {[ "logo" ]} ∅ "" "";
    mkElement "BUTTON" {[ "aria-expanded" := "true"; "type" := "button" ]}
      {[ "mobile-menu-toggle"; "active" ]} ∅ "" "";
    mkElement "UL" ∅ {[ "nav-menu"; "active" ]} ∅ "" "" ].

End Observe.

(** ** Initialize Everything *)

Module Page.

Import Dom.

(** The browser state the five constructors share: the store, the root
    element (its [lang] property and its attributes), the classes of
    [document.body], and the document. *)
Record browser := {
  localStorage : gmap string string;
  rootLang : string;
  rootAttrs : gmap string string;
  bodyClasses : gset string;
  doc : list element
}.

(** The objects the handler creates, by their fields ([SmoothScroll] and
    [ScrollAnimations] have none). *)
Record components := {
  currentLang : string;
  switchAttached : bool;
  currentTheme : string;
  toggle : option nat;
  menu : option nat
}.

(** The listener of [DOMContentLoaded], lines 262-272: the five
    constructors in their order, each on the state the previous one left,
    then the class [loaded] on the body.  [new SmoothScroll()] attaches
    listeners and changes nothing. *)
Definition onDOMContentLoaded (e : ThemeManager.env) (b : browser)
    : components * browser :=
  let lm :=
    LanguageManager.construct (localStorage b) (rootLang b) (doc b) in
  let tm :=
    ThemeManager.construct e (rootAttrs b)
      (LanguageManager.localStorage lm) in
  let mm := MobileMenu.construct (LanguageManager.doc lm) in
  let d := ScrollAnimations.init (MobileMenu.doc mm) in
  ({| currentLang := LanguageManager.currentLang lm;
      switchAttached := LanguageManager.switchAttached lm;
      currentTheme := ThemeManager.currentTheme tm;
      toggle := MobileMenu.toggle mm;
      menu := MobileMenu.menu mm |},
   {| localStorage := ThemeManager.localStorage tm;
      rootLang := LanguageManager.rootLang lm;
      rootAttrs := ThemeManager.rootAttrs tm;
      bodyClasses := {[ "loaded" ]} ∪ bodyClasses b;
      doc := d |}).

(** The browser after the page has loaded. *)
Definition loaded (e : ThemeManager.env) (b : browser) : browser :=
  snd (onDOMContentLoaded e b).

(** A system that asks for dark, on a page with a theme toggle. *)
Definition darkEnv : ThemeManager.env :=
  {| ThemeManager.themeToggle := true; ThemeManager.matchMedia := Some true |}.

(** A first visit: an empty store, and a page with a header, a localized
    card and a search field. *)
Definition offerCard : element :=
  mkElement "DIV" {[ "data-fr" := "Offre"; "data-en" := "Offer" ]}
    {[ "package-card" ]} ∅ "Offre" "".

Definition firstVisit : browser :=
  {| localStorage := ∅;
     rootLang := "";
     rootAttrs := ∅;
     bodyClasses := ∅;
     doc := [ MobileMenu.menuButton; MobileMenu.menuPanel; offerCard;
              LanguageManager.searchField ] |}.

End Page.

(** ** Fragments and id selectors *)

Module Fragments.

Import Js SmoothScroll.

(** The elements of a document that have an [id], in document order, each
    with its id and its bounding top. *)
Abbreviation idTable := (list (string * target)).

(** [document.getElementById(name)]: the first element with that id. *)
Fixpoint getElementById (ids : idTable) (name : string) : option target :=
  match ids with
  | [] => None
  | (id, el) :: rest =>
      if strict_eq id name then Some el else getElementById rest name
  end.

(** The fragment of a same-page [href]: what follows the ["#"]. *)
Definition isHash (c : Ascii.ascii) : bool := (Ascii.nat_of_ascii c =? 35)%nat.

Definition fragment (href : string) : option string :=
  match href with
  | String c name => if isHash c then Some name else None
  | EmptyString => None
  end.

(** The element the fragment of [href] identifies: the one the browser's
    own navigation to [href] brings into view. *)
Definition fragmentTarget (ids : idTable) (href : string) : option target :=
  fragment href ≫= getElementById ids.

Definition isDigit (c : Ascii.ascii) : bool :=
  (48 <=? Ascii.nat_of_ascii c)%nat && (Ascii.nat_of_ascii c <=? 57)%nat.

Definition isNameStart (c : Ascii.ascii) : bool :=
  ((65 <=? Ascii.nat_of_ascii c)%nat && (Ascii.nat_of_ascii c <=? 90)%nat)
  || ((97 <=? Ascii.nat_of_ascii c)%nat && (Ascii.nat_of_ascii c <=? 122)%nat)
  || (Ascii.nat_of_ascii c =? 95)%nat.

Definition isNameChar (c : Ascii.ascii) : bool :=
  isNameStart c || isDigit c || (Ascii.nat_of_ascii c =? 45)%nat.

Fixpoint allNameChars (s : string) : bool :=
  match s with
  | EmptyString => true
  | String c rest => isNameChar c && allNameChars rest
  end.

(** A name that begins with a digit. *)
Definition digitFirst (name : string) : bool :=
  match name with
  | String c _ => isDigit c
  | EmptyString => false
  end.

(** A name made of a letter or an underscore followed by letters, digits,
    underscores and hyphens: an identifier that needs no escaping. *)
Definition plainIdent (name : string) : bool :=
  match name with
  | String c rest => isNameStart c && allNameChars rest
  | EmptyString => false
  end.

(** [document.querySelector(sel)] on a document with the ids [ids].  A
    ["#"] with nothing after it, or followed by a digit, is not a selector;
    ["#"] followed by a plain identifier selects the first element with
    that id (ids compared as written, as in a document with a doctype);
    every other string is left to [other]. *)
Definition hashLookup (ids : idTable) (other : string → lookup)
    (sel : string) : lookup :=
  match fragment sel with
  | Some EmptyString => SyntaxError
  | Some name =>
      if digitFirst name then SyntaxError
      else if plainIdent name then
        match getElementById ids name with
        | Some el => Match el
        | None => NoMatch
        end
      else other sel
  | None => other sel
  end.

(** The page of a document with the ids [ids], scrolled by [scrollY]. *)
Definition pageOf (ids : idTable) (other : string → lookup) (scrollY : Z)
    : page :=
  {| querySelector := hashLookup ids other; pageYOffset := scrollY |}.

(** A page with numbered sections, as generated tables of contents have
    them. *)
Definition numberedSections : idTable :=
  [ ("1", {| boundingTop := 640 |}); ("2", {| boundingTop := 1280 |}) ].

End Fragments.


(** * Properties *)

(** ** JavaScript values and the store *)

Section JsFacts.

Import Js Storage.

Lemma truthy_true (s : string) : truthy s = true ↔ s ≠ "".
Proof. destruct s; simpl; split; intros; congruence. Qed.

Lemma truthy_false (s : string) : truthy s = false ↔ s = "".
Proof. destruct s; simpl; split; intros; congruence. Qed.

Lemma truthy_opt_true (v : option string) :
  truthy_opt v = true ↔ ∃ s, v = Some s ∧ s ≠ "".
Proof.
  destruct v as [s|]; simpl.
  - rewrite truthy_true. split; [eauto | intros (? & [= <-] & ?); done].
  - split; [done | intros (? & ? & _); done].
Qed.

Lemma strict_eq_true (a b : string) : strict_eq a b = true ↔ a = b.
Proof. apply String.eqb_eq. Qed.

Lemma strict_eq_false (a b : string) : strict_eq a b = false ↔ a ≠ b.
Proof. apply String.eqb_neq. Qed.

Lemma getItem_setItem_eq key value (ls : gmap string string) :
  getItem key (setItem key value ls) = Some value.
Proof. apply lookup_insert_eq. Qed.

Lemma getItem_setItem_ne key key' value (ls : gmap string string) :
  key ≠ key' → getItem key' (setItem key value ls) = getItem key' ls.
Proof. intros. by apply lookup_insert_ne. Qed.

Lemma setItem_setItem key v v' (ls : gmap string string) :
  setItem key v (setItem key v' ls) = setItem key v ls.
Proof. apply insert_insert_eq. Qed.

End JsFacts.

(** ** Theme Manager *)

Section ThemeFacts.

Import Js Storage ThemeManager.

(** The theme the operating system asks for. *)
Lemma prefersDark_spec (e : env) :
  prefersDark e = true ↔ matchMedia e = Some true.
Proof.
  unfold prefersDark. destruct (matchMedia e) as [[]|]; split; congruence.
Qed.

(** Whatever the store holds, the resolved theme is a non-empty string. *)
Lemma getInitialTheme_truthy (e : env) (ls : gmap string string) :
  truthy (getInitialTheme e ls) = true.
Proof.
  unfold getInitialTheme.
  destruct (getItem "theme" ls) as [s|]; [destruct (truthy s) eqn:Hs |];
    auto; by destruct (prefersDark e).
Qed.

(** A stored, non-empty theme is the one resolved. *)
Lemma getInitialTheme_saved (e : env) (ls : gmap string string) (s : string) :
  getItem "theme" ls = Some s → truthy s = true → getInitialTheme e ls = s.
Proof. intros Hs Ht. unfold getInitialTheme. by rewrite Hs, Ht. Qed.

Lemma setTheme_persisted (theme : string) (st : state) :
  persistedTheme (setTheme theme st) = Some theme.
Proof. apply getItem_setItem_eq. Qed.

Lemma setTheme_applied (theme : string) (st : state) :
  appliedTheme (setTheme theme st) = Some theme.
Proof. apply lookup_insert_eq. Qed.

Lemma setTheme_current (theme : string) (st : state) :
  currentTheme (setTheme theme st) = theme.
Proof. reflexivity. Qed.

(** Setting the same theme again changes nothing. *)
Lemma setTheme_setTheme (theme theme' : string) (st : state) :
  setTheme theme (setTheme theme' st) = setTheme theme st.
Proof.
  unfold setTheme; simpl. f_equal.
  - apply insert_insert_eq.
  - apply setItem_setItem.
Qed.

Lemma themeStored_setTheme (theme : string) (st : state) :
  truthy theme = true → themeStored (setTheme theme st).
Proof. intros H. unfold themeStored. by rewrite setTheme_persisted. Qed.

Lemma themeStored_construct (e : env) (root ls : gmap string string) :
  themeStored (construct e root ls).
Proof. apply themeStored_setTheme, getInitialTheme_truthy. Qed.

Lemma onSystemChange_stored (matches : bool) (st : state) :
  themeStored st → onSystemChange matches st = st.
Proof.
  unfold themeStored, persistedTheme, onSystemChange. by intros ->.
Qed.

Lemma themeStored_onToggleClick (st : state) : themeStored (onToggleClick st).
Proof.
  unfold onToggleClick. apply themeStored_setTheme.
  by destruct (strict_eq _ _).
Qed.

Lemma themeStored_dispatch (e : env) (ev : event) (st : state) :
  themeStored st → themeStored (dispatch e ev st).
Proof.
  intros H. destruct ev as [|m]; simpl.
  - destruct (themeToggle e); [apply themeStored_onToggleClick | done].
  - destruct (matchMedia e); [by rewrite onSystemChange_stored | done].
Qed.

Lemma themeStored_run (e : env) (evs : list event) (st : state) :
  themeStored st → themeStored (run e evs st).
Proof.
  revert st. induction evs as [|ev evs IH]; intros st H; [done |].
  apply IH, themeStored_dispatch, H.
Qed.

(** No sequence of notifications moves a state that has a theme stored. *)
Lemma notifications_stored (e : env) (ms : list bool) (st : state) :
  themeStored st → run e (SystemChange <$> ms) st = st.
Proof.
  intros H. induction ms as [|m ms IH]; [done |].
  simpl. unfold run in IH |- *. simpl.
  destruct (matchMedia e); [rewrite onSystemChange_stored by done |]; apply IH.
Qed.

(** *** C1: initial resolution *)

(** The cases of [getInitialTheme] over every store.  An empty string
    under [theme], which [setTheme] never writes, counts as no
    preference. *)
Lemma getInitialTheme_cases (e : env) (ls : gmap string string) :
  (∀ s, getItem "theme" ls = Some s → s ≠ "" → getInitialTheme e ls = s)
  ∧ (getItem "theme" ls = None ∨ getItem "theme" ls = Some "" →
     matchMedia e = Some true → getInitialTheme e ls = "dark")
  ∧ (getItem "theme" ls = None ∨ getItem "theme" ls = Some "" →
     matchMedia e = Some false ∨ matchMedia e = None →
     getInitialTheme e ls = "light").
Proof.
  repeat split.
  - intros s Hs Hne. apply getInitialTheme_saved; [done |].
    by apply truthy_true.
  - intros Hls Hmm. apply prefersDark_spec in Hmm.
    unfold getInitialTheme. destruct Hls as [-> | ->]; simpl; by rewrite Hmm.
  - intros Hls Hmm.
    assert (prefersDark e = false) as Hp.
    { unfold prefersDark. by destruct Hmm as [-> | ->]. }
    unfold getInitialTheme. destruct Hls as [-> | ->]; simpl; by rewrite Hp.
Qed.

(** C1: for every combination of stored theme preference (a stored
    ["light"], a stored ["dark"], or none) and operating-system signal
    (dark, not dark, or no [matchMedia] at all), [getInitialTheme] returns
    the stored preference when one is present; otherwise ["dark"] when the
    operating system signals dark; otherwise ["light"].  The same holds of
    every store a page life leaves behind: whatever the component has
    persisted there is what the next resolution returns, under any
    operating-system signal. *)
Theorem C1_initial_theme :
  (∀ (e : env) (ls : gmap string string) (s : string),
     getItem "theme" ls = Some s → s = "light" ∨ s = "dark" →
     getInitialTheme e ls = s)
  ∧ (∀ (e : env) (ls : gmap string string),
       getItem "theme" ls = None → matchMedia e = Some true →
       getInitialTheme e ls = "dark")
  ∧ (∀ (e : env) (ls : gmap string string),
       getItem "theme" ls = None →
       matchMedia e = Some false ∨ matchMedia e = None →
       getInitialTheme e ls = "light")
  ∧ (∀ (e0 e : env) (root ls0 : gmap string string) (evs : list event),
       let st := run e0 evs (construct e0 root ls0) in
       persistedTheme st = Some (getInitialTheme e (localStorage st))).
Proof.
  split; [| split; [| split]].
  - intros e ls s Hs Hdom.
    apply (proj1 (getInitialTheme_cases e ls)); [done |].
    by destruct Hdom as [-> | ->].
  - intros e ls Hnone. apply (proj1 (proj2 (getInitialTheme_cases e ls))).
    by left.
  - intros e ls Hnone. apply (proj2 (proj2 (getInitialTheme_cases e ls))).
    by left.
  - intros e0 e root ls0 evs st.
    pose proof (themeStored_run e0 evs _ (themeStored_construct e0 root ls0))
      as Hstored.
    fold st in Hstored. unfold themeStored in Hstored.
    destruct (persistedTheme st) as [s|] eqn:Hs; [| done].
    simpl in Hstored. f_equal. symmetry.
    by apply getInitialTheme_saved.
Qed.

Lemma C1_initial_theme_witness :
  getInitialTheme {| themeToggle := true; matchMedia := Some true |}
    {[ "theme" := "light" ]} = "light"
  ∧ getInitialTheme {| themeToggle := true; matchMedia := Some true |} ∅
    = "dark"
  ∧ getInitialTheme {| themeToggle := true; matchMedia := None |} ∅
    = "light".
Proof.
  split; [| split].
  - apply (proj1 C1_initial_theme
             {| themeToggle := true; matchMedia := Some true |}
             {[ "theme" := "light" ]} "light");
      [reflexivity | left; reflexivity].
  - apply (proj1 (proj2 C1_initial_theme)
             {| themeToggle := true; matchMedia := Some true |} ∅);
      reflexivity.
  - apply (proj1 (proj2 (proj2 C1_initial_theme))
             {| themeToggle := true; matchMedia := None |} ∅);
      [reflexivity | right; reflexivity].
Defined.

(** *** C2: notifications of the operating system *)

(** C2: once the component has persisted a theme, no notification of the
    operating system alters anything, whatever was clicked or notified
    before; the same holds in every state with a non-empty theme in the
    store.  Conversely, a notification that arrives while the store holds
    no theme makes the reported theme the current, the applied and the
    persisted one. *)
Theorem C2_system_notifications :
  (∀ (e : env) (root ls : gmap string string) (evs : list event)
     (ms : list bool),
     let st := run e evs (construct e root ls) in
     run e (SystemChange <$> ms) st = st)
  ∧ (∀ (e : env) (st : state) (s : string) (ms : list bool),
       persistedTheme st = Some s → s ≠ "" →
       run e (SystemChange <$> ms) st = st)
  ∧ (∀ (e : env) (st : state) (matches : bool),
       is_Some (matchMedia e) → persistedTheme st = None →
       let st' := dispatch e (SystemChange matches) st in
       currentTheme st' = systemTheme matches
       ∧ appliedTheme st' = Some (systemTheme matches)
       ∧ persistedTheme st' = Some (systemTheme matches)).
Proof.
  split; [| split].
  - intros e root ls evs ms st. apply notifications_stored.
    apply themeStored_run, themeStored_construct.
  - intros e st s ms Hs Hne. apply notifications_stored.
    unfold themeStored. rewrite Hs. simpl. by apply truthy_true.
  - intros e st matches [b Hb] Hnone. simpl. rewrite Hb.
    unfold onSystemChange. unfold persistedTheme in Hnone. rewrite Hnone.
    simpl. split; [| split].
    + reflexivity.
    + apply setTheme_applied.
    + apply setTheme_persisted.
Qed.

Lemma C2_system_notifications_witness :
  (let st := {| currentTheme := "light";
                rootAttrs := {[ "data-theme" := "light" ]};
                localStorage := {[ "theme" := "light" ]} |} in
   run {| themeToggle := true; matchMedia := Some false |}
     (SystemChange <$> [true; false; true]) st = st)
  ∧ appliedTheme
      (dispatch {| themeToggle := true; matchMedia := Some false |}
         (SystemChange true)
         {| currentTheme := "light";
            rootAttrs := {[ "data-theme" := "light" ]};
            localStorage := ∅ |}) = Some "dark".
Proof.
  split.
  - apply (proj1 (proj2 C2_system_notifications) _ _ "light");
      [reflexivity | discriminate].
  - apply (proj2 (proj2 C2_system_notifications)
             {| themeToggle := true; matchMedia := Some false |}
             {| currentTheme := "light";
                rootAttrs := {[ "data-theme" := "light" ]};
                localStorage := ∅ |} true);
      [eexists; reflexivity | reflexivity].
Defined.

(** *** C3: resolving twice *)

(** C3: for every initial store, constructing the component persists and
    applies the theme it resolved, also when that theme came from the
    operating system; constructing it again on the resulting store (under
    any operating-system signal) applies the same theme and leaves the store
    as it was. *)
Theorem C3_resolution_idempotent (e e' : env) (root ls : gmap string string) :
  let st1 := construct e root ls in
  let st2 := construct e' (rootAttrs st1) (localStorage st1) in
  persistedTheme st1 = Some (getInitialTheme e ls)
  ∧ appliedTheme st1 = Some (getInitialTheme e ls)
  ∧ appliedTheme st2 = appliedTheme st1
  ∧ localStorage st2 = localStorage st1
  ∧ st2 = st1.
Proof.
  intros st1 st2.
  assert (persistedTheme st1 = Some (getInitialTheme e ls)) as Hp
    by apply setTheme_persisted.
  assert (getInitialTheme e' (localStorage st1) = getInitialTheme e ls) as Hr.
  { apply getInitialTheme_saved; [exact Hp | apply getInitialTheme_truthy]. }
  assert (st2 = st1) as Heq.
  { unfold st2, construct at 1. rewrite Hr.
    unfold st1, construct, setTheme; simpl. f_equal.
    - apply insert_insert_eq.
    - apply setItem_setItem. }
  split; [exact Hp |]. split; [apply setTheme_applied |].
  by rewrite Heq.
Qed.

(** *** C4: the toggle *)

(** C4: when the current theme is ["light"] or ["dark"], a click on the
    toggle makes the other one the current theme, applies it to the root
    element and persists it; a second click brings the original theme
    back, applied and persisted. *)
Theorem C4_toggle_flips (st : state) (theme : string) :
  currentTheme st = theme →
  theme = "light" ∨ theme = "dark" →
  ∃ other,
    (theme = "light" ∧ other = "dark" ∨ theme = "dark" ∧ other = "light")
    ∧ currentTheme (onToggleClick st) = other
    ∧ appliedTheme (onToggleClick st) = Some other
    ∧ persistedTheme (onToggleClick st) = Some other
    ∧ currentTheme (onToggleClick (onToggleClick st)) = theme
    ∧ appliedTheme (onToggleClick (onToggleClick st)) = Some theme
    ∧ persistedTheme (onToggleClick (onToggleClick st)) = Some theme.
Proof.
  intros Hcur [-> | ->].
  - exists "dark". unfold onToggleClick at 2 4 6. unfold onToggleClick.
    rewrite Hcur. simpl.
    rewrite !setTheme_applied, !setTheme_persisted. naive_solver.
  - exists "light". unfold onToggleClick at 2 4 6. unfold onToggleClick.
    rewrite Hcur. simpl.
    rewrite !setTheme_applied, !setTheme_persisted. naive_solver.
Qed.

Lemma C4_toggle_flips_witness :
  ∃ other,
    ("light" = "light" ∧ other = "dark" ∨ "light" = "dark" ∧ other = "light")
    ∧ currentTheme (onToggleClick (construct lightEnv ∅ ∅)) = other
    ∧ appliedTheme (onToggleClick (construct lightEnv ∅ ∅)) = Some other
    ∧ persistedTheme (onToggleClick (construct lightEnv ∅ ∅)) = Some other
    ∧ currentTheme (onToggleClick (onToggleClick (construct lightEnv ∅ ∅)))
      = "light"
    ∧ appliedTheme (onToggleClick (onToggleClick (construct lightEnv ∅ ∅)))
      = Some "light"
    ∧ persistedTheme (onToggleClick (onToggleClick (construct lightEnv ∅ ∅)))
      = Some "light".
Proof.
  apply (C4_toggle_flips (construct lightEnv ∅ ∅) "light");
    [reflexivity | left; reflexivity].
Defined.

End ThemeFacts.

(** ** The document *)

Section DomFacts.

Import Dom.
Local Open Scope nat_scope.

Implicit Types (doc : list element) (el : element) (sel : element → bool).

Lemma matchingFrom_elem sel doc (i j : nat) :
  j ∈ matchingFrom sel i doc ↔
  i ≤ j ∧ ∃ el, doc !! (j - i) = Some el ∧ sel el = true.
Proof.
  revert i. induction doc as [|el0 rest IH]; intros i; simpl.
  - split; [intros H; by apply elem_of_nil in H | intros [_ (el & H & _)]; done].
  - assert (j ∈ matchingFrom sel (S i) rest ↔
            i < j ∧ ∃ el, (el0 :: rest) !! (j - i) = Some el ∧ sel el = true)
      as Hrest.
    { rewrite IH. split.
      - intros [Hle (el & Hl & Hs)]. split; [lia |]. exists el.
        replace (j - i) with (S (j - S i)) by lia. done.
      - intros [Hlt (el & Hl & Hs)]. split; [lia |]. exists el.
        replace (j - i) with (S (j - S i)) in Hl by lia. done. }
    destruct (sel el0) eqn:Hsel.
    + rewrite elem_of_cons, Hrest. split.
      * intros [-> | [Hlt H]]; [| split; [lia | done]].
        split; [done |]. exists el0. by rewrite Nat.sub_diag.
      * intros [Hle (el & Hl & Hs)].
        destruct (decide (j = i)) as [-> | Hne]; [by left | right].
        split; [lia | eauto].
    + rewrite Hrest. split.
      * intros [Hlt H]. split; [lia | done].
      * intros [Hle (el & Hl & Hs)]. split; [| eauto].
        destruct (decide (j = i)) as [-> | Hne]; [| lia].
        rewrite Nat.sub_diag in Hl. simpl in Hl. congruence.
Qed.

Lemma matchingFrom_NoDup sel doc (i : nat) : NoDup (matchingFrom sel i doc).
Proof.
  revert i. induction doc as [|el0 rest IH]; intros i; simpl.
  - constructor.
  - destruct (sel el0); [| apply IH].
    constructor; [| apply IH].
    rewrite matchingFrom_elem. lia.
Qed.

(** The positions [querySelectorAll] returns are those of the matching
    elements, each once. *)
Lemma querySelectorAll_elem sel doc (j : nat) :
  j ∈ querySelectorAll sel doc ↔ ∃ el, doc !! j = Some el ∧ sel el = true.
Proof.
  unfold querySelectorAll. rewrite matchingFrom_elem, Nat.sub_0_r.
  split; [intros [_ H]; done | intros H; split; [lia | done]].
Qed.

Lemma querySelectorAll_NoDup sel doc : NoDup (querySelectorAll sel doc).
Proof. apply matchingFrom_NoDup. Qed.

Lemma querySelector_Some sel doc (i : nat) :
  querySelector sel doc = Some i → ∃ el, doc !! i = Some el ∧ sel el = true.
Proof.
  unfold querySelector. intros H. apply querySelectorAll_elem.
  destruct (querySelectorAll sel doc) as [|i0 l]; simplify_eq/=.
  apply elem_of_cons. by left.
Qed.

Lemma update_lookup (i j : nat) (f : element → element) doc :
  update i f doc !! j = if decide (i = j) then f <$> doc !! j else doc !! j.
Proof.
  unfold update. rewrite list_lookup_alter.
  by destruct (decide (i = j)) as [-> | ?].
Qed.

Lemma update_length (i : nat) (f : element → element) doc :
  length (update i f doc) = length doc.
Proof. apply length_alter. Qed.

(** [forEach] over distinct positions mutates each of them once and leaves
    the other elements alone. *)
Lemma forEach_lookup (nodes : list nat) (f : element → element) doc (j : nat) :
  NoDup nodes →
  forEach nodes f doc !! j =
    if decide (j ∈ nodes) then f <$> doc !! j else doc !! j.
Proof.
  revert doc. induction nodes as [|i nodes IH]; intros doc Hnd.
  - rewrite decide_False; [done | apply not_elem_of_nil].
  - apply NoDup_cons in Hnd as [Hi Hnd].
    change (forEach (i :: nodes) f doc) with (forEach nodes f (update i f doc)).
    rewrite IH by done. rewrite update_lookup.
    destruct (decide (i = j)) as [-> | Hne].
    + rewrite decide_False by done. rewrite decide_True; [done |].
      apply elem_of_cons. by left.
    + destruct (decide (j ∈ nodes)) as [Hin | Hnin].
      * rewrite decide_True; [done |]. apply elem_of_cons. by right.
      * rewrite decide_False; [done |].
        rewrite elem_of_cons. intros [-> | ?]; done.
Qed.

(** A loop over the matches of a selector. *)
Lemma forEach_querySelectorAll sel (f : element → element) doc (j : nat) :
  forEach (querySelectorAll sel doc) f doc !! j =
    (λ el, if sel el then f el else el) <$> doc !! j.
Proof.
  rewrite forEach_lookup by apply querySelectorAll_NoDup.
  destruct (doc !! j) as [el|] eqn:Hj; simpl.
  - destruct (sel el) eqn:Hsel.
    + rewrite decide_True; [done |]. apply querySelectorAll_elem. eauto.
    + rewrite decide_False; [done |]. rewrite querySelectorAll_elem.
      intros (el' & ? & ?). congruence.
  - by case_decide.
Qed.

End DomFacts.

(** ** Language Switcher *)

Section LanguageFacts.

Import Js Storage Dom LanguageManager.

Implicit Types (el : element) (st : state) (lang text : string).



Lemma translate_tagName lang el : tagName (translate lang el) = tagName el.
Proof.
  unfold translate. destruct (getAttribute _ el) as [text|]; [| done].
  destruct (truthy text); [| done].
  destruct (_ || _); [done |]. by destruct (strict_eq _ _).
Qed.

Lemma translate_attrs lang el : attrs (translate lang el) = attrs el.
Proof.
  unfold translate. destruct (getAttribute _ el) as [text|]; [| done].
  destruct (truthy text); [| done].
  destruct (_ || _); [done |]. by destruct (strict_eq _ _).
Qed.


(** The callback leaves the element alone when the text of the language is
    missing or empty. *)
Lemma translate_skip lang el :
  getAttribute ("data-" +:+ lang) el = None
  ∨ getAttribute ("data-" +:+ lang) el = Some "" →
  translate lang el = el.
Proof. unfold translate. by intros [-> | ->]. Qed.




Lemma localized_attrs el el' : attrs el' = attrs el → localized el' = localized el.
Proof. unfold localized, hasAttribute. by intros ->. Qed.


(** *** C5: the texts after [setLanguage] *)




(** *** C10: the language of the root element *)

(** C10: every call of [setLanguage] sets the [lang] property of the root
    element to the language passed, next to recording it in the object and
    in the store; this holds for the call of the constructor and for the
    one of the click listener, the only two in the script. *)
Theorem C10_setLanguage_root_lang :
  (∀ lang st,
     rootLang (setLanguage lang st) = lang
     ∧ currentLang (setLanguage lang st) = lang
     ∧ getItem "lang" (localStorage (setLanguage lang st)) = Some lang)
  ∧ (∀ ls root d,
       rootLang (construct ls root d) = initialLang ls)
  ∧ (∀ st,
       rootLang (onSwitchClick st) = currentLang (onSwitchClick st)).
Proof.
  split; [| split].
  - intros lang st. repeat split. apply getItem_setItem_eq.
  - reflexivity.
  - reflexivity.
Qed.

End LanguageFacts.

(** ** Mobile Menu *)

Section MenuFacts.

Import Js Dom MobileMenu.

Implicit Types (d : list element) (el : element) (t m : nat).

Lemma classList_contains_toggle cls el :
  classList_contains cls (classList_toggle cls el)
  = negb (classList_contains cls el).
Proof.
  unfold classList_toggle, classList_contains.
  destruct (decide (cls ∈ classList el)) as [Hin | Hnin].
  - rewrite (bool_decide_eq_true_2 _ Hin). simpl.
    apply bool_decide_eq_false_2.
    rewrite elem_of_difference, elem_of_singleton. tauto.
  - rewrite (bool_decide_eq_false_2 _ Hnin). simpl.
    apply bool_decide_eq_true_2.
    rewrite elem_of_union, elem_of_singleton. tauto.
Qed.

Lemma classList_contains_remove cls el :
  classList_contains cls (classList_remove cls el) = false.
Proof.
  unfold classList_contains. apply bool_decide_eq_false_2. simpl.
  rewrite elem_of_difference, elem_of_singleton. tauto.
Qed.

Lemma hasClass_update cls (i j : nat) (f : element → element) d :
  hasClass cls j (update i f d) =
    if decide (i = j)
    then from_option (λ el, classList_contains cls (f el)) false (d !! j)
    else hasClass cls j d.
Proof.
  unfold hasClass. rewrite update_lookup.
  case_decide; [| done]. by destruct (d !! j).
Qed.

Lemma attribute_update name (i j : nat) (f : element → element) d :
  attribute name j (update i f d) =
    if decide (i = j)
    then d !! j ≫= (λ el, getAttribute name (f el))
    else attribute name j d.
Proof.
  unfold attribute. rewrite update_lookup.
  case_decide; [| done]. by destruct (d !! j).
Qed.

Lemma placed_update t m (i : nat) (f : element → element) d :
  placed t m d → placed t m (update i f d).
Proof.
  intros (Hne & Ht & Hm). split; [done |].
  rewrite !update_lookup. split; case_decide; try done;
    by apply fmap_is_Some.
Qed.

Lemma placed_toggleMenu t m d : placed t m d → placed t m (toggleMenu t m d).
Proof. intros H. unfold toggleMenu. by repeat apply placed_update. Qed.

Lemma placed_closeMenu t m d : placed t m d → placed t m (closeMenu t m d).
Proof. intros H. unfold closeMenu. by repeat apply placed_update. Qed.

(** [toggleMenu] flips the three indicators together. *)
Lemma toggleMenu_shows (open : bool) t m d :
  placed t m d → shows open t m d → shows (negb open) t m (toggleMenu t m d).
Proof.
  intros (Hne & [et Het] & [em Hem]) (Ht & Hm & _).
  unfold hasClass in Ht, Hm. rewrite Het in Ht. rewrite Hem in Hm.
  assert (hasClass "active" m
            (update t (classList_toggle "active")
               (update m (classList_toggle "active") d)) = negb open) as Hm2.
  { rewrite !hasClass_update. rewrite decide_False by done.
    rewrite decide_True by done. rewrite Hem. simpl.
    by rewrite classList_contains_toggle, Hm. }
  unfold toggleMenu, shows. rewrite Hm2. split; [| split].
  - rewrite !hasClass_update. rewrite decide_True by done.
    rewrite update_lookup, decide_True by done.
    rewrite update_lookup, decide_False by done. rewrite Het. simpl.
    change (classList_contains "active" (setAttribute ?n ?v ?e))
      with (classList_contains "active" e).
    by rewrite classList_contains_toggle, Ht.
  - rewrite hasClass_update, decide_False by done. exact Hm2.
  - rewrite attribute_update, decide_True by done.
    rewrite update_lookup, decide_True by done.
    rewrite update_lookup, decide_False by done. rewrite Het. simpl.
    unfold getAttribute. simpl. apply lookup_insert_eq.
Qed.

(** [closeMenu] sets the three indicators to closed. *)
Lemma closeMenu_shows t m d :
  placed t m d → shows false t m (closeMenu t m d).
Proof.
  intros (Hne & [et Het] & [em Hem]).
  unfold closeMenu, shows. split; [| split].
  - rewrite !hasClass_update. rewrite decide_True by done.
    rewrite update_lookup, decide_True by done.
    rewrite update_lookup, decide_False by done. rewrite Het. simpl.
    change (classList_contains "active" (setAttribute ?n ?v ?e))
      with (classList_contains "active" e).
    apply classList_contains_remove.
  - rewrite !hasClass_update. rewrite !(decide_False (P := t = m)) by done.
    rewrite decide_True by done. rewrite Hem. simpl.
    apply classList_contains_remove.
  - rewrite attribute_update, decide_True by done.
    rewrite update_lookup, decide_True by done.
    rewrite update_lookup, decide_False by done. rewrite Het. simpl.
    unfold getAttribute. simpl. apply lookup_insert_eq.
Qed.

(** Every listener keeps the indicators in agreement. *)
Lemma nodeListener_agree t m (n : node) d :
  placed t m d → (∃ open, shows open t m d) →
  placed t m (nodeListener t m n d)
  ∧ ∃ open, shows open t m (nodeListener t m n d).
Proof.
  intros Hp [open Hs]. destruct n; simpl.
  - split; [by apply placed_toggleMenu |].
    exists (negb open). by apply toggleMenu_shows.
  - eauto.
  - split; [by apply placed_closeMenu |].
    exists false. by apply closeMenu_shows.
  - eauto.
Qed.

Lemma path_agree t m (path : list node) d :
  placed t m d → (∃ open, shows open t m d) →
  placed t m (foldl (λ d n, nodeListener t m n d) d path)
  ∧ ∃ open, shows open t m (foldl (λ d n, nodeListener t m n d) d path).
Proof.
  revert d. induction path as [|n path IH]; intros d Hp Hs; [done |].
  simpl. destruct (nodeListener_agree t m n d Hp Hs) as [Hp' Hs'].
  by apply IH.
Qed.

Lemma dispatch_agree t m (ev : event) (st : state) :
  toggle st = Some t → menu st = Some m →
  placed t m (doc st) → (∃ open, shows open t m (doc st)) →
  toggle (dispatch ev st) = Some t ∧ menu (dispatch ev st) = Some m
  ∧ placed t m (doc (dispatch ev st))
  ∧ ∃ open, shows open t m (doc (dispatch ev st)).
Proof.
  intros Ht Hm Hp Hs. unfold dispatch. rewrite Ht, Hm. simpl.
  split; [done |]. split; [done |]. destruct ev as [path | w].
  - destruct (path_agree t m path (doc st) Hp Hs) as [Hp' Hs'].
    unfold documentListener. destruct (_ && _); [| done].
    split; [by apply placed_closeMenu |].
    exists false. by apply closeMenu_shows.
  - unfold resizeListener. destruct (767 <? w)%Z; [| done].
    split; [by apply placed_closeMenu |].
    exists false. by apply closeMenu_shows.
Qed.

(** Whatever events arrive, in whatever order, the class of the toggle,
    the class of the menu and [aria-expanded] tell the same state. *)
Lemma run_agree t m (evs : list event) (st : state) :
  toggle st = Some t → menu st = Some m →
  placed t m (doc st) → (∃ open, shows open t m (doc st)) →
  ∃ open, shows open t m (doc (run evs st)).
Proof.
  revert st. induction evs as [|ev evs IH]; intros st Ht Hm Hp Hs; [done |].
  destruct (dispatch_agree t m ev st Ht Hm Hp Hs) as (Ht' & Hm' & Hp' & Hs').
  simpl. by apply IH.
Qed.

(** One transition of the specification, as the browser delivers it. *)
Lemma dispatch_refines t m (open : bool) (tr : transition) (st : state) :
  toggle st = Some t → menu st = Some m →
  placed t m (doc st) → shows open t m (doc st) →
  toggle (dispatch (event_of tr) st) = Some t
  ∧ menu (dispatch (event_of tr) st) = Some m
  ∧ placed t m (doc (dispatch (event_of tr) st))
  ∧ shows (spec_step open tr) t m (doc (dispatch (event_of tr) st)).
Proof.
  intros Ht Hm Hp Hs. unfold dispatch. rewrite Ht, Hm.
  split; [done |]. split; [done |]. destruct tr as [| | | w]; simpl.
  - unfold documentListener.
    rewrite (bool_decide_eq_true_2 (ToggleNode ∈ [ToggleNode]))
      by apply list_elem_of_here.
    simpl. split; [by apply placed_toggleMenu | by apply toggleMenu_shows].
  - unfold documentListener.
    rewrite (bool_decide_eq_false_2 (ToggleNode ∈ [OtherNode]))
      by (rewrite list_elem_of_singleton; discriminate).
    rewrite (bool_decide_eq_false_2 (MenuNode ∈ [OtherNode]))
      by (rewrite list_elem_of_singleton; discriminate).
    simpl. split; [by apply placed_closeMenu | by apply closeMenu_shows].
  - unfold documentListener.
    rewrite (bool_decide_eq_true_2 (MenuNode ∈ [LinkNode; MenuNode]))
      by (apply list_elem_of_further, list_elem_of_here).
    rewrite andb_false_r.
    split; [by apply placed_closeMenu | by apply closeMenu_shows].
  - unfold resizeListener.
    destruct (Z.ltb_spec 767 w), (Z.leb_spec 768 w); try lia.
    + split; [by apply placed_closeMenu | by apply closeMenu_shows].
    + done.
Qed.

Lemma run_refines t m (open : bool) (trs : list transition) (st : state) :
  toggle st = Some t → menu st = Some m →
  placed t m (doc st) → shows open t m (doc st) →
  shows (spec_run trs open) t m (doc (run (event_of <$> trs) st)).
Proof.
  revert open st.
  induction trs as [|tr trs IH]; intros open st Ht Hm Hp Hs; [done |].
  destruct (dispatch_refines t m open tr st Ht Hm Hp Hs)
    as (Ht' & Hm' & Hp' & Hs').
  simpl. by apply IH.
Qed.

Lemma construct_placed t m d :
  toggle (construct d) = Some t → menu (construct d) = Some m → t ≠ m →
  placed t m d.
Proof.
  simpl. intros Ht Hm Hne.
  apply querySelector_Some in Ht as (et & Het & _).
  apply querySelector_Some in Hm as (em & Hem & _).
  split; [done |]. split; eauto.
Qed.

(** *** C6: the indicators of the menu *)

(** C6: when the page has a toggle and a menu (two elements) that start
    closed, then after every sequence of transitions (a click on the
    trigger, outside, or on a link of the panel; a resize to any width)
    the class [active] of the toggle, the class [active] of the menu and
    [aria-expanded] all show the state the specification's machine
    reaches from closed: toggled by a click on the trigger, closed by the
    other clicks and by a resize to a width of at least 768. *)
Theorem C6_menu_indicators (d : list element) (t m : nat)
    (trs : list transition) :
  toggle (construct d) = Some t → menu (construct d) = Some m → t ≠ m →
  shows false t m d →
  shows (spec_run trs false) t m (doc (run (event_of <$> trs) (construct d))).
Proof.
  intros Ht Hm Hne Hs.
  apply run_refines; try done. by apply construct_placed.
Qed.

Lemma C6_menu_indicators_witness :
  shows (spec_run [TriggerClick; ResizeTo 767; LinkClick; TriggerClick] false)
    0 1
    (doc (run (event_of <$>
                 [TriggerClick; ResizeTo 767; LinkClick; TriggerClick])
            (construct header))).
Proof.
  apply (C6_menu_indicators header 0 1);
    [reflexivity | reflexivity | discriminate |].
  repeat split.
Defined.

End MenuFacts.

(** ** Smooth Scroll *)

Section ScrollFacts.

Import Js SmoothScroll Fragments.

Lemma onAnchorClick_other (pg : page) (href : string) :
  href ≠ "#" →
  onAnchorClick pg href =
    match querySelector pg href with
    | SyntaxError =>
        Throw "SyntaxError" {| defaultPrevented := false; scrollRequests := [] |}
    | NoMatch => Return {| defaultPrevented := false; scrollRequests := [] |}
    | Match el =>
        Return {| defaultPrevented := true;
                  scrollRequests :=
                    [ {| top := (boundingTop el + pageYOffset pg - 80)%Z;
                         behavior := "smooth" |} ] |}
    end.
Proof.
  intros Hne. apply strict_eq_false in Hne.
  unfold onAnchorClick. by rewrite Hne.
Qed.

(** *** C7: a click on a same-page anchor *)

(** An [href] whose fragment begins with a digit is rejected as a
    selector, whatever the document holds. *)
Lemma clickAnchor_digit_fragment (ids : list (string * target))
    (other : string → lookup) (scrollY : Z) (name : string) :
  digitFirst name = true →
  clickAnchor (pageOf ids other scrollY) ("#" +:+ name)
  = Throw "SyntaxError" {| defaultPrevented := false; scrollRequests := [] |}.
Proof.
  intros Hdigit. destruct name as [|c name]; [done |].
  remember ("#" +:+ String c name) as href eqn:Hhref.
  vm_compute in Hhref. subst href.
  unfold clickAnchor, onAnchorClick, pageOf, hashLookup.
  cbn -[digitFirst isHash]. change (isHash _) with true.
  cbn -[digitFirst]. by rewrite Hdigit.
Qed.

(** C7 does not hold of the anchor listener: on a page whose section
    [<section id="1">] is 640 units below the top of the viewport, scrolled
    by 120 units, the fragment of [<a href="#1">] identifies that section,
    so the claim asks for the default navigation to be suppressed and for a
    smooth scroll to be requested.  The listener hands ["#1"] to
    [document.querySelector], which rejects it as a selector: the exception
    leaves the listener, the default navigation is not suppressed and no
    scroll is requested. *)
Theorem C7_fragment_match_throws :
  fragmentTarget numberedSections "#1" = Some {| boundingTop := 640 |}
  ∧ clickAnchor (pageOf numberedSections (λ _, NoMatch) 120) "#1"
    = Throw "SyntaxError" {| defaultPrevented := false; scrollRequests := [] |}.
Proof. split; reflexivity. Qed.

(** *** C9: no listener throws *)

(** C9 does not hold of the anchor listener: on a page with a link
    [<a href="#1">], a click on the link reaches the listener, the
    listener hands ["#1"] to [document.querySelector], which rejects it as
    a selector, and the exception leaves the listener. *)
Theorem C9_anchor_click_throws :
  String.prefix "#" "#1" = true
  ∧ clickAnchor servicesPage "#1"
    = Throw "SyntaxError" {| defaultPrevented := false; scrollRequests := [] |}
  ∧ throws (clickAnchor servicesPage "#1") = true.
Proof. repeat split. Qed.

(** The anchor listener throws exactly when the lookup rejects the
    [href]. *)
Lemma clickAnchor_throws (pg : page) (href : string) :
  throws (clickAnchor pg href) = true ↔
  String.prefix "#" href = true ∧ href ≠ "#"
  ∧ querySelector pg href = SyntaxError.
Proof.
  unfold clickAnchor. destruct (String.prefix "#" href) eqn:Hp; simpl.
  - destruct (decide (href = "#")) as [-> | Hne].
    + simpl. split; [done | intros (_ & ? & _); done].
    + rewrite onAnchorClick_other by done.
      destruct (querySelector pg href); simpl;
        (split; [intros ?; repeat split; congruence
                | intros (_ & _ & ?); congruence]).
  - split; [done | intros (? & _); done].
Qed.

End ScrollFacts.

(** ** Components on a page without their elements *)

Section MissingElements.

Import Dom.

(** Without [.mobile-menu-toggle] or without [.nav-menu], no event changes
    anything. *)
Lemma menu_missing_noop (evs : list MobileMenu.event) (st : MobileMenu.state) :
  MobileMenu.toggle st = None ∨ MobileMenu.menu st = None →
  MobileMenu.run evs st = st.
Proof.
  intros H. induction evs as [|ev evs IH]; [done |].
  unfold MobileMenu.run in *. simpl.
  replace (MobileMenu.dispatch ev st) with st; [done |].
  unfold MobileMenu.dispatch.
  destruct H as [-> | ->]; [done |]. by destruct (MobileMenu.toggle st).
Qed.

(** Without [.theme-toggle], a click changes nothing. *)
Lemma theme_toggle_missing_noop (e : ThemeManager.env) (st : ThemeManager.state) :
  ThemeManager.themeToggle e = false →
  ThemeManager.dispatch e ThemeManager.ToggleClick st = st.
Proof. intros H. simpl. by rewrite H. Qed.

(** Without [.lang-switch], a click changes nothing. *)
Lemma lang_switch_missing_noop (st : LanguageManager.state) :
  LanguageManager.switchAttached st = false →
  LanguageManager.clickSwitch st = st.
Proof. intros H. unfold LanguageManager.clickSwitch. by rewrite H. Qed.

(** Without cards, [init] changes nothing. *)
Lemma cards_missing_noop (d : list element) :
  querySelectorAll ScrollAnimations.card d = [] → ScrollAnimations.init d = d.
Proof. intros H. unfold ScrollAnimations.init. by rewrite H. Qed.

End MissingElements.

(** ** Scroll Animations *)

Section AnimationFacts.

Import Js Dom ScrollAnimations.

Implicit Types (d : list element) (el : element) (i : nat).

Lemma styleOf_update prop (i j : nat) (f : element → element) d :
  styleOf prop j (update i f d) =
    if decide (i = j)
    then d !! j ≫= (λ el, style (f el) !! prop)
    else styleOf prop j d.
Proof.
  unfold styleOf. rewrite update_lookup.
  case_decide; [| done]. by destruct (d !! j).
Qed.

Lemma arm_opacity el : style (arm el) !! "opacity" = Some "0".
Proof.
  unfold arm; simpl. rewrite !lookup_insert_ne by discriminate.
  apply lookup_insert_eq.
Qed.

Lemma arm_transform el : style (arm el) !! "transform" = Some "translateY(20px)".
Proof.
  unfold arm; simpl. rewrite lookup_insert_ne by discriminate.
  apply lookup_insert_eq.
Qed.

Lemma reveal_opacity el : style (reveal el) !! "opacity" = Some "1".
Proof.
  unfold reveal; simpl. rewrite lookup_insert_ne by discriminate.
  apply lookup_insert_eq.
Qed.

Lemma reveal_transform el : style (reveal el) !! "transform" = Some "translateY(0)".
Proof. unfold reveal; simpl. apply lookup_insert_eq. Qed.

(** After [init], every card is armed: transparent and 20 units down. *)
Lemma init_hidden d i el :
  d !! i = Some el → card el = true → hidden i (init d).
Proof.
  intros Hi Hcard. unfold hidden, styleOf, init.
  rewrite forEach_querySelectorAll, Hi. simpl. rewrite Hcard.
  split; [apply arm_opacity | apply arm_transform].
Qed.

Lemma init_length d : length (init d) = length d.
Proof.
  unfold init, forEach. generalize (querySelectorAll card d).
  intros nodes. revert d.
  induction nodes as [|n nodes IH]; intros d; [done |].
  simpl. rewrite IH. apply update_length.
Qed.

(** All batches of a page life, seen as one sequence of entries. *)
Lemma run_concat (batches : list (list entry)) d :
  run batches d = onIntersection (concat batches) d.
Proof.
  revert d. induction batches as [|b batches IH]; intros d; [done |].
  simpl. unfold run in IH |- *. simpl. rewrite IH.
  unfold onIntersection. by rewrite foldl_app.
Qed.

(** A property that [reveal] writes holds the written value as soon as an
    entry for the element was intersecting, and its old value until then. *)
Lemma onIntersection_style prop value (entries : list entry) d i :
  (∀ el, style (reveal el) !! prop = Some value) →
  is_Some (d !! i) →
  styleOf prop i (onIntersection entries d) =
    if existsb (λ e, bool_decide (target e = i) && isIntersecting e) entries
    then Some value
    else styleOf prop i d.
Proof.
  intros Hreveal. revert d.
  induction entries as [|e entries IH]; intros d Hi; [done |].
  simpl. destruct (isIntersecting e) eqn:He.
  - rewrite IH. 2:{ rewrite update_lookup. case_decide;
                    [by apply fmap_is_Some | done]. }
    rewrite styleOf_update. rewrite andb_true_r.
    destruct (decide (target e = i)) as [Heq | Hne].
    + rewrite (bool_decide_eq_true_2 _ Heq). cbn -[reveal].
      destruct Hi as [el Hel]. subst i. rewrite Hel. cbn -[reveal].
      rewrite Hreveal.
      by destruct (existsb _ _).
    + by rewrite (bool_decide_eq_false_2 _ Hne).
  - rewrite IH by done. by rewrite andb_false_r.
Qed.

(** *** C8: the one-shot reveal *)

(** C8: for every card of the document: right after [init] the card has
    opacity 0 and is shifted 20 units down; it stays so as long as no entry
    has reported it as intersecting; and once an entry has reported it as
    intersecting it has opacity 1 and no shift, whatever entries follow,
    intersecting or not. *)
Theorem C8_fade_in (d : list element) (i : nat) (el : element) :
  d !! i = Some el → card el = true →
  hidden i (init d)
  ∧ (∀ batches, wasSeen i batches = false → hidden i (run batches (init d)))
  ∧ (∀ batches, wasSeen i batches = true → revealed i (run batches (init d))).
Proof.
  intros Hi Hcard.
  pose proof (init_hidden d i el Hi Hcard) as [Hop Htr].
  assert (is_Some (init d !! i)) as Hsome.
  { apply lookup_lt_is_Some. rewrite init_length.
    apply lookup_lt_is_Some. eauto. }
  split; [done |]. split; intros batches Hseen; unfold wasSeen in Hseen.
  - unfold hidden. rewrite run_concat.
    rewrite (onIntersection_style "opacity" "1")
      by (done || apply reveal_opacity).
    rewrite (onIntersection_style "transform" "translateY(0)")
      by (done || apply reveal_transform).
    by rewrite Hseen.
  - unfold revealed. rewrite run_concat.
    rewrite (onIntersection_style "opacity" "1")
      by (done || apply reveal_opacity).
    rewrite (onIntersection_style "transform" "translateY(0)")
      by (done || apply reveal_transform).
    by rewrite Hseen.
Qed.

Lemma C8_fade_in_witness :
  hidden 1 (init cardPage)
  ∧ hidden 1
      (run [ [ {| target := 1; isIntersecting := false |} ] ] (init cardPage))
  ∧ revealed 1
      (run [ [ {| target := 1; isIntersecting := false |} ];
             [ {| target := 1; isIntersecting := true |} ];
             [ {| target := 1; isIntersecting := false |} ] ]
         (init cardPage)).
Proof.
  destruct (C8_fade_in cardPage 1 (mkElement "DIV" ∅ {[ "stat-card" ]} ∅ "" "")
              eq_refl eq_refl) as (H0 & Hhid & Hrev).
  split; [exact H0 |]. split.
  - apply Hhid. reflexivity.
  - apply Hrev. reflexivity.
Defined.

End AnimationFacts.

(** * Further properties of the components *)

(** ** Theme Manager: what every page life keeps *)

Section ThemeLife.

Import Js Storage ThemeManager.

Implicit Types (e : env) (st : state) (evs : list event).

(** Every listener changes the state through [setTheme] or not at all. *)
Lemma dispatch_setTheme e (ev : event) st :
  dispatch e ev st = st
  ∨ dispatch e ev st = setTheme "light" st
  ∨ dispatch e ev st = setTheme "dark" st.
Proof.
  destruct ev as [|matches]; simpl.
  - destruct (themeToggle e); [| by left]. unfold onToggleClick.
    destruct (strict_eq _ _); auto.
  - destruct (matchMedia e); [| by left]. unfold onSystemChange.
    destruct (negb _); [| by left]. destruct matches; auto.
Qed.

(** A property of states that [setTheme] establishes for every non-empty
    theme, and that the constructor therefore hands to every later state. *)
Lemma run_invariant (P : state → Prop) e (root ls : gmap string string) evs :
  (∀ theme st, theme ≠ "" → P (setTheme theme st)) →
  P (run e evs (construct e root ls)).
Proof.
  intros Hset.
  assert (P (construct e root ls)) as Hinit.
  { apply Hset. apply truthy_true, getInitialTheme_truthy. }
  revert Hinit. generalize (construct e root ls).
  induction evs as [|ev evs IH]; intros st Hst; [done |].
  simpl. apply IH.
  destruct (dispatch_setTheme e ev st) as [-> | [-> | ->]];
    [done | by apply Hset | by apply Hset].
Qed.

(** X6: at every moment of a page life (after the constructor and any
    sequence of clicks and notifications), the [currentTheme] field, the
    [data-theme] attribute of the root element and the stored theme are
    one and the same non-empty string. *)
Theorem X6_theme_coherent e (root ls : gmap string string) evs :
  let st := run e evs (construct e root ls) in
  appliedTheme st = Some (currentTheme st)
  ∧ persistedTheme st = Some (currentTheme st)
  ∧ currentTheme st ≠ "".
Proof.
  apply (run_invariant
           (λ st, appliedTheme st = Some (currentTheme st)
                  ∧ persistedTheme st = Some (currentTheme st)
                  ∧ currentTheme st ≠ "")).
  intros theme st Hne.
  split; [apply setTheme_applied |]. split; [apply setTheme_persisted | done].
Qed.

Lemma lightOrDark_dispatch e (ev : event) st :
  currentTheme st = "light" ∨ currentTheme st = "dark" →
  currentTheme (dispatch e ev st) = "light"
  ∨ currentTheme (dispatch e ev st) = "dark".
Proof.
  intros H. destruct (dispatch_setTheme e ev st) as [-> | [-> | ->]]; auto.
Qed.

Lemma lightOrDark_run e evs st :
  currentTheme st = "light" ∨ currentTheme st = "dark" →
  currentTheme (run e evs st) = "light" ∨ currentTheme (run e evs st) = "dark".
Proof.
  revert st. induction evs as [|ev evs IH]; intros st H; [done |].
  simpl. by apply IH, lightOrDark_dispatch.
Qed.

(** X7: the constructor applies whatever non-empty string the store holds,
    but a click on the toggle only ever sets ["light"] or ["dark"]: on a
    page with a toggle, once a click is among the events the current theme
    is one of the two, whatever the store held at load and whatever events
    follow. *)
Theorem X7_theme_light_or_dark e (root ls : gmap string string) evs :
  themeToggle e = true → ToggleClick ∈ evs →
  let st := run e evs (construct e root ls) in
  currentTheme st = "light" ∨ currentTheme st = "dark".
Proof.
  intros Htoggle Hin.
  apply list_elem_of_split in Hin as (evs1 & evs2 & ->).
  unfold run. rewrite foldl_app. simpl. rewrite Htoggle.
  apply lightOrDark_run. unfold onToggleClick.
  destruct (strict_eq _ _); auto.
Qed.

Lemma X7_theme_light_or_dark_witness :
  let st := run lightEnv [SystemChange true; ToggleClick]
              (construct lightEnv ∅ {[ "theme" := "sepia" ]}) in
  currentTheme st = "light" ∨ currentTheme st = "dark".
Proof.
  apply (X7_theme_light_or_dark lightEnv ∅ {[ "theme" := "sepia" ]}
           [SystemChange true; ToggleClick]).
  - reflexivity.
  - apply list_elem_of_further, list_elem_of_here.
Defined.

(** X8: the component writes one key of the store and one attribute of
    the root element: after the constructor and any events, every key
    other than [theme] and every attribute other than [data-theme] holds
    what it held before the page loaded. *)
Theorem X8_theme_frame e (root ls : gmap string string) evs (name : string) :
  let st := run e evs (construct e root ls) in
  (name ≠ "theme" → getItem name (localStorage st) = getItem name ls)
  ∧ (name ≠ "data-theme" → rootAttrs st !! name = root !! name).
Proof.
  simpl.
  assert (∀ theme st,
            (name ≠ "theme" →
             getItem name (localStorage (setTheme theme st))
             = getItem name (localStorage st))
            ∧ (name ≠ "data-theme" →
               rootAttrs (setTheme theme st) !! name = rootAttrs st !! name))
    as Hset.
  { intros theme st. split; intros Hne; simpl.
    - by apply getItem_setItem_ne.
    - by apply lookup_insert_ne. }
  assert (∀ st,
            (name ≠ "theme" →
             getItem name (localStorage (run e evs st))
             = getItem name (localStorage st))
            ∧ (name ≠ "data-theme" →
               rootAttrs (run e evs st) !! name = rootAttrs st !! name))
    as Hrun.
  { induction evs as [|ev evs IH]; intros st; [done |].
    simpl. destruct (IH (dispatch e ev st)) as [IH1 IH2].
    destruct (dispatch_setTheme e ev st) as [Hd | [Hd | Hd]];
      rewrite Hd in IH1, IH2 |- *; [done | |];
      destruct (Hset "light" st), (Hset "dark" st);
      split; intros Hne; [rewrite IH1 | rewrite IH2 | rewrite IH1 | rewrite IH2];
      auto. }
  destruct (Hrun (construct e root ls)) as [H1 H2].
  destruct (Hset (getInitialTheme e ls)
              {| currentTheme := getInitialTheme e ls;
                 rootAttrs := root; localStorage := ls |}) as [H3 H4].
  split; intros Hne.
  - rewrite H1 by done. by apply H3.
  - rewrite H2 by done. by apply H4.
Qed.

Lemma X8_theme_frame_witness :
  let st := run lightEnv [ToggleClick]
              (construct lightEnv {[ "lang" := "fr" ]} {[ "lang" := "en" ]}) in
  getItem "lang" (localStorage st) = Some "en"
  ∧ rootAttrs st !! "lang" = Some "fr".
Proof.
  destruct (X8_theme_frame lightEnv {[ "lang" := "fr" ]} {[ "lang" := "en" ]}
              [ToggleClick] "lang") as [H1 H2].
  split; [apply H1 | apply H2]; discriminate.
Defined.

(** X9: on a page without [.theme-toggle], nothing ever changes the theme
    after the constructor: no click listener exists, and the listener for
    the operating system finds a theme stored every time. *)
Theorem X9_theme_fixed_without_toggle e (root ls : gmap string string) evs :
  themeToggle e = false →
  run e evs (construct e root ls) = construct e root ls.
Proof.
  intros Htoggle.
  pose proof (themeStored_construct e root ls) as Hstored.
  revert Hstored. generalize (construct e root ls).
  induction evs as [|ev evs IH]; intros st Hst; [done |].
  simpl. replace (dispatch e ev st) with st; [by apply IH |].
  destruct ev as [|matches]; simpl.
  - by rewrite Htoggle.
  - destruct (matchMedia e); [| done]. by rewrite onSystemChange_stored.
Qed.

Lemma X9_theme_fixed_without_toggle_witness :
  run {| themeToggle := false; matchMedia := Some true |}
    [SystemChange false; ToggleClick; SystemChange true]
    (construct {| themeToggle := false; matchMedia := Some true |} ∅ ∅)
  = construct {| themeToggle := false; matchMedia := Some true |} ∅ ∅.
Proof.
  apply (X9_theme_fixed_without_toggle
           {| themeToggle := false; matchMedia := Some true |} ∅ ∅).
  reflexivity.
Defined.

End ThemeLife.

(** ** Smooth Scroll: exceptions and effects *)

Section ScrollEffects.

Import Js SmoothScroll Observe.

(** X14: a click on an anchor ends in an exception exactly when the anchor
    has the listener (its [href] begins with ["#"]), the [href] is not the
    bare ["#"], and [document.querySelector] rejects the [href] as a
    selector; the bare ["#"] never reaches [querySelector]. *)
Theorem X14_anchor_throws_iff (pg : page) (href : string) :
  throws (clickAnchor pg href) = true ↔
  String.prefix "#" href = true ∧ href ≠ "#"
  ∧ querySelector pg href = SyntaxError.
Proof. apply clickAnchor_throws. Qed.

Lemma X14_anchor_throws_iff_witness :
  throws (clickAnchor servicesPage "#1") = true.
Proof.
  apply (proj2 (X14_anchor_throws_iff servicesPage "#1")).
  split; [reflexivity |]. split; [discriminate | reflexivity].
Defined.

(** X15: whatever the page and the [href], a click requests at most one
    scroll, every request is smooth, a scroll is requested only when an
    element was found, and then the default navigation is suppressed as
    well.  The default navigation is suppressed exactly for the bare ["#"]
    and for an [href] that finds an element. *)
Theorem X15_anchor_effects (pg : page) (href : string) :
  let fx := effectsOf (clickAnchor pg href) in
  (length (scrollRequests fx) ≤ 1)%nat
  ∧ (∀ r, r ∈ scrollRequests fx → behavior r = "smooth")
  ∧ (scrollRequests fx ≠ [] →
     defaultPrevented fx = true ∧ ∃ el, querySelector pg href = Match el)
  ∧ (defaultPrevented fx = true ↔
     String.prefix "#" href = true
     ∧ (href = "#" ∨ ∃ el, querySelector pg href = Match el)).
Proof.
  assert (∀ r : scrollToOptions, r ∈ [] → behavior r = "smooth") as Hnil
    by (intros r Hr; by apply elem_of_nil in Hr).
  unfold clickAnchor. destruct (String.prefix "#" href) eqn:Hp; simpl.
  - destruct (decide (href = "#")) as [-> | Hne]; simpl.
    + repeat split; auto; done.
    + rewrite onAnchorClick_other by done.
      destruct (querySelector pg href) as [| | el] eqn:Hq; simpl.
      * repeat split; try done; try lia.
        intros (_ & [? | [el ?]]); done.
      * repeat split; try done; try lia.
        intros (_ & [? | [el ?]]); done.
      * repeat split; try done; try lia; eauto.
        intros r Hr. apply list_elem_of_singleton in Hr. by subst.
  - repeat split; try done; lia.
Qed.

Lemma X15_anchor_effects_witness :
  defaultPrevented (effectsOf (clickAnchor servicesPage "#services")) = true
  ∧ ∃ el, querySelector servicesPage "#services" = Match el.
Proof.
  apply (proj1 (proj2 (proj2 (X15_anchor_effects servicesPage "#services")))).
  discriminate.
Defined.

End ScrollEffects.

(** ** Mobile Menu: every event, and what the events leave alone *)

Section MenuLife.

Import Js Dom MobileMenu Observe.

Implicit Types (d : list element) (el : element) (t m : nat) (st : state).

(** X10: on a page with a toggle and a menu (two elements) whose three
    indicators agree at load, they agree after every sequence of events:
    clicks with any bubbling path (through the toggle, through links,
    inside or outside the menu, in any combination) and resizes to any
    width. *)
Theorem X10_menu_indicators_agree d t m (evs : list event) :
  toggle (construct d) = Some t → menu (construct d) = Some m → t ≠ m →
  (∃ open, shows open t m d) →
  ∃ open, shows open t m (doc (run evs (construct d))).
Proof.
  intros Ht Hm Hne Hs.
  apply run_agree; try done. by apply construct_placed.
Qed.

Lemma X10_menu_indicators_agree_witness :
  ∃ open,
    shows open 0 1
      (doc (run [ Click [LinkNode; ToggleNode; MenuNode]; Resize 500;
                  Click [ToggleNode; ToggleNode]; Click [MenuNode] ]
              (construct header))).
Proof.
  apply (X10_menu_indicators_agree header 0 1);
    [reflexivity | reflexivity | discriminate |].
  exists false. repeat split.
Defined.

(** X13: when the page lacks [.mobile-menu-toggle] or [.nav-menu], [init]
    attaches nothing: no click and no resize changes the document. *)
Theorem X13_menu_missing_elements d (evs : list event) :
  querySelector (byClass "mobile-menu-toggle") d = None
  ∨ querySelector (byClass "nav-menu") d = None →
  run evs (construct d) = construct d.
Proof. intros H. by apply menu_missing_noop. Qed.

Lemma X13_menu_missing_elements_witness :
  run [Click [ToggleNode]; Resize 1024; Click [OtherNode]]
    (construct buttonOnly)
  = construct buttonOnly.
Proof.
  apply (X13_menu_missing_elements buttonOnly). right. reflexivity.
Defined.

(** *** The elements the menu does not own *)

Lemma sameButMenuState_refl el : sameButMenuState el el.
Proof. by repeat split. Qed.

Lemma sameButMenuState_trans el1 el2 el3 :
  sameButMenuState el1 el2 → sameButMenuState el2 el3 →
  sameButMenuState el1 el3.
Proof.
  intros (? & ? & ? & ? & ? & ?) (? & ? & ? & ? & ? & ?).
  repeat split; congruence.
Qed.

Lemma sameButMenuState_remove el :
  sameButMenuState el (classList_remove "active" el).
Proof.
  repeat split. simpl. apply set_eq. intros x.
  rewrite !elem_of_difference. tauto.
Qed.

Lemma sameButMenuState_toggle el :
  sameButMenuState el (classList_toggle "active" el).
Proof.
  unfold classList_toggle.
  destruct (classList_contains "active" el);
    [apply sameButMenuState_remove |].
  repeat split. simpl. apply set_eq. intros x.
  rewrite !elem_of_difference, elem_of_union. tauto.
Qed.

Lemma sameButMenuState_aria (value : string) el :
  sameButMenuState el (setAttribute "aria-expanded" value el).
Proof. repeat split. simpl. apply delete_insert_eq. Qed.

Lemma localStep_id t m : localStep t m (λ d, d).
Proof.
  intros d j. split; [done |]. intros el Hel. exists el.
  split; [done | apply sameButMenuState_refl].
Qed.

Lemma localStep_compose t m (F G : list element → list element) :
  localStep t m F → localStep t m G → localStep t m (λ d, G (F d)).
Proof.
  intros HF HG d j. split.
  - intros Ht Hm. rewrite (proj1 (HG (F d) j)) by done.
    by apply (proj1 (HF d j)).
  - intros el Hel.
    destruct (proj2 (HF d j) el Hel) as (el1 & H1 & R1).
    destruct (proj2 (HG (F d) j) el1 H1) as (el2 & H2 & R2).
    exists el2. split; [done |]. by eapply sameButMenuState_trans.
Qed.

Lemma localStep_update t m (i : nat) (f : element → element) :
  i = t ∨ i = m → (∀ el, sameButMenuState el (f el)) →
  localStep t m (update i f).
Proof.
  intros Hi Hf d j. rewrite update_lookup. split.
  - intros Ht Hm. rewrite decide_False; [done |]. destruct Hi; congruence.
  - intros el Hel. rewrite Hel. case_decide; simpl; eauto.
    exists el. split; [done | apply sameButMenuState_refl].
Qed.

Lemma localStep_closeMenu t m : localStep t m (closeMenu t m).
Proof.
  pose proof (localStep_update t m m (classList_remove "active")
                (or_intror eq_refl) sameButMenuState_remove) as H1.
  pose proof (localStep_update t m t (classList_remove "active")
                (or_introl eq_refl) sameButMenuState_remove) as H2.
  pose proof (localStep_update t m t (setAttribute "aria-expanded" "false")
                (or_introl eq_refl) (sameButMenuState_aria "false")) as H3.
  exact (localStep_compose t m _ _ (localStep_compose t m _ _ H1 H2) H3).
Qed.

Lemma localStep_toggleMenu t m : localStep t m (toggleMenu t m).
Proof.
  pose proof (localStep_update t m m (classList_toggle "active")
                (or_intror eq_refl) sameButMenuState_toggle) as H1.
  pose proof (localStep_update t m t (classList_toggle "active")
                (or_introl eq_refl) sameButMenuState_toggle) as H2.
  intros d j. unfold toggleMenu.
  set (value := string_of_bool _).
  pose proof (localStep_update t m t (setAttribute "aria-expanded" value)
                (or_introl eq_refl) (sameButMenuState_aria value)) as H3.
  exact (localStep_compose t m _ _ (localStep_compose t m _ _ H1 H2) H3 d j).
Qed.

Lemma localStep_path t m (path : list node) :
  localStep t m (λ d, foldl (λ d n, nodeListener t m n d) d path).
Proof.
  induction path as [|n path IH]; [apply localStep_id |].
  assert (localStep t m (nodeListener t m n)) as Hn.
  { destruct n; simpl;
      auto using localStep_id, localStep_closeMenu, localStep_toggleMenu. }
  exact (localStep_compose t m (nodeListener t m n) _ Hn IH).
Qed.

Lemma dispatch_fields (ev : event) st :
  toggle (dispatch ev st) = toggle st ∧ menu (dispatch ev st) = menu st.
Proof.
  unfold dispatch.
  destruct (toggle st) eqn:Ht, (menu st) eqn:Hm; simpl; by rewrite ?Ht, ?Hm.
Qed.

Lemma dispatch_local (ev : event) st (j : nat) :
  (toggle st ≠ Some j → menu st ≠ Some j →
   doc (dispatch ev st) !! j = doc st !! j)
  ∧ (∀ el, doc st !! j = Some el →
       ∃ el', doc (dispatch ev st) !! j = Some el' ∧ sameButMenuState el el').
Proof.
  unfold dispatch.
  destruct (toggle st) as [t|] eqn:Ht, (menu st) as [m|] eqn:Hm;
    try (split; [done | intros el Hel; exists el;
                        split; [done | apply sameButMenuState_refl]]).
  simpl.
  assert (localStep t m
            (λ d, match ev with
                  | Click path =>
                      documentListener t m path
                        (foldl (λ d n, nodeListener t m n d) d path)
                  | Resize w => resizeListener t m w d
                  end)) as Hstep.
  { destruct ev as [path | w].
    - assert (localStep t m (documentListener t m path)) as Hdoc.
      { unfold documentListener.
        destruct (_ && _); [apply localStep_closeMenu | apply localStep_id]. }
      exact (localStep_compose t m _ _ (localStep_path t m path) Hdoc).
    - unfold resizeListener.
      destruct (767 <? w)%Z; [apply localStep_closeMenu | apply localStep_id]. }
  destruct (Hstep (doc st) j) as [H1 H2]. split; [| exact H2].
  intros Hjt Hjm. apply H1; congruence.
Qed.

(** X11: the menu owns two things, the class [active] on the toggle and on
    the menu, and the attribute [aria-expanded] of the toggle.  After any
    sequence of events every other element of the document is exactly as
    before, and the toggle and the menu keep their tag, text, placeholder,
    style, every other class and every other attribute. *)
Theorem X11_menu_frame st (evs : list event) (j : nat) :
  (toggle st ≠ Some j → menu st ≠ Some j →
   doc (run evs st) !! j = doc st !! j)
  ∧ (∀ el, doc st !! j = Some el →
       ∃ el', doc (run evs st) !! j = Some el' ∧ sameButMenuState el el').
Proof.
  revert st. induction evs as [|ev evs IH]; intros st.
  - split; [done |]. intros el Hel. exists el.
    split; [done | apply sameButMenuState_refl].
  - simpl. destruct (IH (dispatch ev st)) as [IH1 IH2].
    destruct (dispatch_local ev st j) as [H1 H2].
    destruct (dispatch_fields ev st) as [Ht Hm].
    split.
    + intros Hjt Hjm. rewrite IH1 by congruence. by apply H1.
    + intros el Hel. destruct (H2 el Hel) as (el1 & Hel1 & R1).
      destruct (IH2 el1 Hel1) as (el2 & Hel2 & R2).
      exists el2. split; [done |]. by eapply sameButMenuState_trans.
Qed.

Lemma X11_menu_frame_witness :
  doc (run [Click [ToggleNode]; Click [OtherNode]] (construct openHeader)) !! 0
  = Some (mkElement "IMG" {[ "alt" := "logo" ]} {[ "logo" ]} ∅ "" "")
  ∧ ∃ el',
      doc (run [Click [ToggleNode]; Click [OtherNode]] (construct openHeader))
        !! 1 = Some el'
      ∧ sameButMenuState
          (mkElement "BUTTON" {[ "aria-expanded" := "true"; "type" := "button" ]}
             {[ "mobile-menu-toggle"; "active" ]} ∅ "" "")
          el'.
Proof.
  split.
  - apply (proj1 (X11_menu_frame (construct openHeader)
                    [Click [ToggleNode]; Click [OtherNode]] 0));
      discriminate.
  - apply (proj2 (X11_menu_frame (construct openHeader)
                    [Click [ToggleNode]; Click [OtherNode]] 1)).
    reflexivity.
Defined.

(** *** Closing twice, toggling twice *)

Lemma classList_remove_idemp cls el :
  classList_remove cls (classList_remove cls el) = classList_remove cls el.
Proof.
  unfold classList_remove, setClassList; simpl. f_equal.
  apply set_eq. intros x. rewrite !elem_of_difference. tauto.
Qed.

Lemma classList_toggle_toggle cls el :
  classList_toggle cls (classList_toggle cls el) = el.
Proof.
  unfold classList_toggle at 1. rewrite classList_contains_toggle.
  unfold classList_toggle, classList_contains.
  destruct el as [tag ats cl sty txt ph]; simpl.
  destruct (decide (cls ∈ cl)) as [Hin | Hnin].
  - rewrite (bool_decide_eq_true_2 _ Hin). simpl.
    unfold classList_add, classList_remove, setClassList; simpl. f_equal.
    apply set_eq. intros x.
    rewrite elem_of_union, elem_of_difference, elem_of_singleton.
    split; [intros [-> | [? _]]; done |].
    intros Hx. destruct (decide (x = cls)); auto.
  - rewrite (bool_decide_eq_false_2 _ Hnin). simpl.
    unfold classList_add, classList_remove, setClassList; simpl. f_equal.
    apply set_eq. intros x.
    rewrite elem_of_difference, elem_of_union, elem_of_singleton.
    split; [intros [[-> | ?] ?]; done |].
    intros Hx. split; [by right | by intros ->].
Qed.

Lemma classList_remove_add cls el :
  classList_contains cls el = false →
  classList_remove cls (classList_add cls el) = el.
Proof.
  unfold classList_contains. intros Hnin%bool_decide_eq_false_1.
  destruct el as [tag ats cl sty txt ph]; simpl in *.
  unfold classList_add, classList_remove, setClassList; simpl. f_equal.
  apply set_eq. intros x.
  rewrite elem_of_difference, elem_of_union, elem_of_singleton.
  split; [intros [[-> | ?] ?]; done |].
  intros Hx. split; [by right | by intros ->].
Qed.

Lemma setAttribute_setAttribute name v v' el :
  setAttribute name v (setAttribute name v' el) = setAttribute name v el.
Proof.
  unfold setAttribute; simpl. f_equal. apply insert_insert_eq.
Qed.

Lemma setAttribute_same name v el :
  getAttribute name el = Some v → setAttribute name v el = el.
Proof.
  destruct el as [tag ats cl sty txt ph]. unfold getAttribute, setAttribute.
  simpl. intros H. f_equal. by apply insert_id.
Qed.

Lemma classList_remove_setAttribute cls name v el :
  classList_remove cls (setAttribute name v el)
  = setAttribute name v (classList_remove cls el).
Proof. reflexivity. Qed.

Lemma classList_toggle_setAttribute cls name v el :
  classList_toggle cls (setAttribute name v el)
  = setAttribute name v (classList_toggle cls el).
Proof.
  unfold classList_toggle.
  change (classList_contains cls (setAttribute name v el))
    with (classList_contains cls el).
  by destruct (classList_contains cls el).
Qed.

Lemma closeMenu_lookup t m d (j : nat) :
  closeMenu t m d !! j =
    (λ el,
       let el1 := if decide (m = j) then classList_remove "active" el else el in
       if decide (t = j)
       then setAttribute "aria-expanded" "false"
              (classList_remove "active" el1)
       else el1) <$> d !! j.
Proof.
  unfold closeMenu. rewrite !update_lookup.
  destruct (decide (t = j)), (decide (m = j)), (d !! j); done.
Qed.

Lemma toggleMenu_flag t m d :
  t ≠ m → is_Some (d !! m) →
  hasClass "active" m
    (update t (classList_toggle "active")
       (update m (classList_toggle "active") d))
  = negb (hasClass "active" m d).
Proof.
  intros Hne [em Hem]. rewrite !hasClass_update.
  rewrite decide_False by done. rewrite decide_True by done.
  unfold hasClass. rewrite Hem. simpl. apply classList_contains_toggle.
Qed.

Lemma toggleMenu_lookup t m d (j : nat) :
  t ≠ m → is_Some (d !! m) →
  toggleMenu t m d !! j =
    (λ el,
       if decide (t = j)
       then setAttribute "aria-expanded"
              (string_of_bool (negb (hasClass "active" m d)))
              (classList_toggle "active" el)
       else if decide (m = j) then classList_toggle "active" el else el)
      <$> d !! j.
Proof.
  intros Hne Hm. unfold toggleMenu. rewrite toggleMenu_flag by done.
  rewrite !update_lookup.
  destruct (decide (t = j)) as [-> | ?], (decide (m = j)) as [-> | ?],
    (d !! j); done.
Qed.

(** X12: closing a menu that is closed changes nothing ([closeMenu] is
    idempotent, on any document).  On a page with a toggle and a menu (two
    elements) whose indicators agree, two calls of [toggleMenu] give the
    document back exactly, and when the menu is closed, opening it and
    closing it give the document back exactly. *)
Theorem X12_menu_round_trips :
  (∀ t m d, closeMenu t m (closeMenu t m d) = closeMenu t m d)
  ∧ (∀ (open : bool) t m d,
       placed t m d → shows open t m d →
       toggleMenu t m (toggleMenu t m d) = d)
  ∧ (∀ t m d,
       placed t m d → shows false t m d →
       closeMenu t m (toggleMenu t m d) = d).
Proof.
  split; [| split].
  - intros t m d. apply list_eq. intros j. rewrite !closeMenu_lookup.
    destruct (d !! j) as [el|]; [| done].
    cbn -[classList_remove classList_toggle classList_add setAttribute].
    f_equal.
    destruct (decide (t = j)), (decide (m = j)); try done.
    + rewrite !classList_remove_setAttribute.
      by rewrite setAttribute_setAttribute, !classList_remove_idemp.
    + rewrite !classList_remove_setAttribute.
      by rewrite setAttribute_setAttribute, !classList_remove_idemp.
    + apply classList_remove_idemp.
  - intros open t m d Hp Hs.
    pose proof (placed_toggleMenu t m d Hp) as Hp'.
    pose proof (toggleMenu_shows open t m d Hp Hs) as (_ & Hm' & _).
    destruct Hp as (Hne & [et Het] & Hem), Hp' as (_ & _ & Hem').
    destruct Hs as (_ & Hmd & Haria).
    apply list_eq. intros j.
    rewrite toggleMenu_lookup by done. rewrite Hm'.
    rewrite toggleMenu_lookup by done. rewrite Hmd.
    destruct (d !! j) as [el|] eqn:Hj; [| done].
    cbn -[classList_remove classList_toggle classList_add setAttribute].
    f_equal.
    destruct (decide (t = j)) as [-> | ?].
    + rewrite classList_toggle_setAttribute, classList_toggle_toggle.
      rewrite setAttribute_setAttribute, negb_involutive.
      apply setAttribute_same. unfold attribute in Haria.
      rewrite Hj in Haria. exact Haria.
    + destruct (decide (m = j)); [apply classList_toggle_toggle | done].
  - intros t m d Hp Hs.
    destruct Hp as (Hne & [et Het] & Hem). destruct Hs as (Htd & Hmd & Haria).
    apply list_eq. intros j.
    rewrite closeMenu_lookup. rewrite toggleMenu_lookup by done.
    destruct (d !! j) as [el|] eqn:Hj; [| done].
    cbn -[classList_remove classList_toggle classList_add setAttribute].
    f_equal.
    unfold hasClass in Htd, Hmd. unfold attribute in Haria.
    destruct (decide (t = j)) as [-> | ?].
    + rewrite decide_False by done. rewrite Hj in Htd, Haria.
      rewrite classList_remove_setAttribute, setAttribute_setAttribute.
      unfold classList_toggle. rewrite Htd.
      rewrite classList_remove_add by done.
      by apply setAttribute_same.
    + destruct (decide (m = j)) as [-> | ?]; [| done].
      rewrite Hj in Hmd. unfold classList_toggle. rewrite Hmd.
      by apply classList_remove_add.
Qed.

Lemma X12_menu_round_trips_witness :
  toggleMenu 1 2 (toggleMenu 1 2 openHeader) = openHeader
  ∧ closeMenu 0 1 (toggleMenu 0 1 header) = header.
Proof.
  split.
  - apply (proj1 (proj2 X12_menu_round_trips) true 1 2 openHeader).
    + split; [discriminate |]. split; eexists; reflexivity.
    + repeat split.
  - apply (proj2 (proj2 X12_menu_round_trips) 0 1 header).
    + split; [discriminate |]. split; eexists; reflexivity.
    + repeat split.
Defined.

(** *** Closing from any state *)

(** X22: [closeMenu] needs no agreement to start from: on a page with a
    toggle and a menu (two elements), a click outside both, a click on a
    link of the menu and a resize to a width above 767 each leave the three
    indicators closed, whatever classes and whatever [aria-expanded] (or
    none) the markup or earlier scripts had left. *)
Theorem X22_menu_closes_from_any_state (tr : transition) st t m :
  toggle st = Some t → menu st = Some m → placed t m (doc st) →
  tr = OutsideClick ∨ tr = LinkClick
  ∨ (∃ width, tr = ResizeTo width ∧ (767 < width)%Z) →
  shows false t m (doc (dispatch (event_of tr) st)).
Proof.
  intros Ht Hm Hp Htr. unfold dispatch. rewrite Ht, Hm.
  destruct Htr as [-> | [-> | (w & -> & Hw)]]; simpl.
  - unfold documentListener.
    rewrite (bool_decide_eq_false_2 (ToggleNode ∈ [OtherNode]))
      by (rewrite list_elem_of_singleton; discriminate).
    rewrite (bool_decide_eq_false_2 (MenuNode ∈ [OtherNode]))
      by (rewrite list_elem_of_singleton; discriminate).
    simpl. by apply closeMenu_shows.
  - unfold documentListener.
    rewrite (bool_decide_eq_true_2 (MenuNode ∈ [LinkNode; MenuNode]))
      by (apply list_elem_of_further, list_elem_of_here).
    rewrite andb_false_r. by apply closeMenu_shows.
  - unfold resizeListener.
    destruct (Z.ltb_spec 767 w); [| lia]. by apply closeMenu_shows.
Qed.

Lemma X22_menu_closes_from_any_state_witness :
  shows false 0 1
    (doc (dispatch (event_of OutsideClick)
            {| toggle := Some 0; menu := Some 1; doc := tornHeader |})).
Proof.
  apply (X22_menu_closes_from_any_state OutsideClick
           {| toggle := Some 0; menu := Some 1; doc := tornHeader |} 0 1).
  - reflexivity.
  - reflexivity.
  - split; [discriminate |]. split; eexists; reflexivity.
  - left. reflexivity.
Defined.

End MenuLife.

(** ** Scroll Animations: what [init] and the observer write *)

Section AnimationLife.

Import Js Dom ScrollAnimations Observe.

Implicit Types (d : list element) (el : element) (j : nat).

Lemma card_arm el : card (arm el) = card el.
Proof. reflexivity. Qed.

Lemma arm_arm el : arm (arm el) = arm el.
Proof.
  unfold arm, setStyle; simpl. f_equal.
  apply map_eq. intros prop. rewrite !lookup_insert.
  repeat case_decide; done.
Qed.

Lemma reveal_reveal el : reveal (reveal el) = reveal el.
Proof.
  unfold reveal, setStyle; simpl. f_equal.
  apply map_eq. intros prop. rewrite !lookup_insert.
  repeat case_decide; done.
Qed.

Lemma init_lookup d j :
  init d !! j = (λ el, if card el then arm el else el) <$> d !! j.
Proof. apply forEach_querySelectorAll. Qed.

(** The callback, element by element: [reveal] for a target of an
    intersecting entry, nothing for any other element. *)
Lemma onIntersection_lookup (entries : list entry) d j :
  onIntersection entries d !! j =
    (λ el,
       if existsb (λ e, bool_decide (target e = j) && isIntersecting e) entries
       then reveal el else el) <$> d !! j.
Proof.
  revert d. induction entries as [|e entries IH]; intros d.
  - simpl. by destruct (d !! j).
  - change (onIntersection (e :: entries) d)
      with (onIntersection entries
              (if isIntersecting e then update (target e) reveal d else d)).
    rewrite IH. cbn [existsb].
    destruct (isIntersecting e).
    + rewrite update_lookup, andb_true_r.
      destruct (decide (target e = j)) as [Heq | Hne].
      * rewrite (bool_decide_eq_true_2 _ Heq).
        destruct (d !! j) as [el|]; [| done].
        cbn -[reveal]. f_equal.
        destruct (existsb _ entries); [apply reveal_reveal | done].
      * by rewrite (bool_decide_eq_false_2 _ Hne).
    + by rewrite andb_false_r.
Qed.

(** X16: [init] changes cards only, and of a card only three properties
    of the inline style: every element that is not a card comes out as it
    went in; a card keeps its tag, attributes, classes, text and every
    other style property, and has its transition set.  Running [init]
    again changes nothing. *)
Theorem X16_animation_init d :
  init (init d) = init d
  ∧ (∀ j el, d !! j = Some el → card el = false → init d !! j = Some el)
  ∧ (∀ j el, d !! j = Some el → card el = true →
       ∃ el', init d !! j = Some el'
              ∧ sameButStyle el el'
              ∧ style el' !! "transition"
                = Some "opacity 0.6s ease, transform 0.6s ease"
              ∧ ∀ prop, prop ≠ "opacity" → prop ≠ "transform" →
                        prop ≠ "transition" →
                        style el' !! prop = style el !! prop).
Proof.
  split; [| split].
  - apply list_eq. intros j. rewrite !init_lookup.
    destruct (d !! j) as [el|]; [| done].
    unfold fmap, option_fmap, option_map. f_equal.
    destruct (card el) eqn:Hc.
    + by rewrite card_arm, Hc, arm_arm.
    + by rewrite Hc.
  - intros j el Hel Hc. rewrite init_lookup, Hel. simpl. by rewrite Hc.
  - intros j el Hel Hc. exists (arm el).
    split; [rewrite init_lookup, Hel; simpl; by rewrite Hc |].
    split; [by repeat split |]. split.
    + unfold arm; simpl. apply lookup_insert_eq.
    + intros prop H1 H2 H3. unfold arm; simpl.
      by rewrite !lookup_insert_ne.
Qed.

Lemma X16_animation_init_witness :
  init styledCards !! 0 = Some note
  ∧ ∃ el', init styledCards !! 2 = Some el'
           ∧ sameButStyle wideCard el'
           ∧ style el' !! "transition"
             = Some "opacity 0.6s ease, transform 0.6s ease"
           ∧ ∀ prop, prop ≠ "opacity" → prop ≠ "transform" →
                     prop ≠ "transition" →
                     style el' !! prop = style wideCard !! prop.
Proof.
  split.
  - apply (proj1 (proj2 (X16_animation_init styledCards)) 0); reflexivity.
  - apply (proj2 (proj2 (X16_animation_init styledCards)) 2 wideCard);
      reflexivity.
Defined.

Lemma existsb_Permutation {A} (f : A → bool) (l l' : list A) :
  l ≡ₚ l' → existsb f l = existsb f l'.
Proof.
  induction 1 as [|x l l' _ IH|x y l|l1 l2 l3 _ IH1 _ IH2]; simpl.
  - done.
  - by rewrite IH.
  - by destruct (f x), (f y).
  - by rewrite IH1.
Qed.

(** X17: what the observer callback does depends only on which elements
    were reported as intersecting: entries that are not intersecting change
    nothing, the order of the entries does not matter, and neither does
    the way the browser groups them into calls. *)
Theorem X17_observer_entries d :
  (∀ entries, Forall (λ e, isIntersecting e = false) entries →
     onIntersection entries d = d)
  ∧ (∀ entries entries', entries ≡ₚ entries' →
       onIntersection entries d = onIntersection entries' d)
  ∧ (∀ batches, run batches d = onIntersection (concat batches) d).
Proof.
  split; [| split].
  - intros entries Hall. apply list_eq. intros j.
    rewrite onIntersection_lookup.
    replace (existsb _ entries) with false.
    + by destruct (d !! j).
    + symmetry. induction Hall as [|e entries He _ IH]; [done |].
      simpl. by rewrite He, andb_false_r.
  - intros entries entries' Hperm. apply list_eq. intros j.
    rewrite !onIntersection_lookup.
    by rewrite (existsb_Permutation _ _ _ Hperm).
  - intros batches. apply run_concat.
Qed.

Lemma X17_observer_entries_witness :
  onIntersection [ {| target := 1; isIntersecting := false |};
                   {| target := 2; isIntersecting := false |} ]
    (init styledCards) = init styledCards
  ∧ onIntersection [ {| target := 1; isIntersecting := true |};
                     {| target := 2; isIntersecting := false |};
                     {| target := 2; isIntersecting := true |} ]
      (init styledCards)
    = onIntersection [ {| target := 2; isIntersecting := true |};
                       {| target := 2; isIntersecting := false |};
                       {| target := 1; isIntersecting := true |} ]
        (init styledCards).
Proof.
  split.
  - apply (proj1 (X17_observer_entries (init styledCards))).
    repeat constructor.
  - apply (proj1 (proj2 (X17_observer_entries (init styledCards)))).
    apply (Permutation_rev
             [ {| target := 1; isIntersecting := true |};
               {| target := 2; isIntersecting := false |};
               {| target := 2; isIntersecting := true |} ]).
Defined.

(** X18: through a whole page life ([init], then any calls of the
    observer) every element keeps its tag, attributes, classes, text and
    placeholder, and every style property other than [opacity],
    [transform] and [transition]; a card keeps the transition [init] gave
    it, so that its reveal is animated; and an element that is not a card
    and was never reported as intersecting is exactly as it was. *)
Theorem X18_animation_frame d j el (batches : list (list entry)) :
  d !! j = Some el →
  ∃ el', run batches (init d) !! j = Some el'
         ∧ sameButStyle el el'
         ∧ (∀ prop, prop ≠ "opacity" → prop ≠ "transform" →
                    prop ≠ "transition" →
                    style el' !! prop = style el !! prop)
         ∧ (card el = true →
            style el' !! "transition"
            = Some "opacity 0.6s ease, transform 0.6s ease")
         ∧ (card el = false → wasSeen j batches = false → el' = el).
Proof.
  intros Hel. rewrite run_concat, onIntersection_lookup, init_lookup, Hel.
  unfold wasSeen. unfold fmap, option_fmap, option_map.
  destruct (existsb _ (concat batches)) eqn:Hseen, (card el) eqn:Hc;
    eexists; (split; [reflexivity |]); (split; [by repeat split |]).
  - repeat split; try done.
    + intros prop H1 H2 H3. unfold reveal, arm; simpl.
      by rewrite !lookup_insert_ne.
    + intros _. unfold reveal, arm; simpl.
      rewrite !lookup_insert_ne by done. apply lookup_insert_eq.
  - repeat split; try done.
    intros prop H1 H2 H3. unfold reveal; simpl.
    by rewrite !lookup_insert_ne.
  - repeat split; try done.
    + intros prop H1 H2 H3. unfold arm; simpl.
      by rewrite !lookup_insert_ne.
    + intros _. unfold arm; simpl. apply lookup_insert_eq.
  - repeat split; done.
Qed.

Lemma X18_animation_frame_witness :
  ∃ el',
    run [ [ {| target := 2; isIntersecting := true |} ] ] (init styledCards)
      !! 2 = Some el'
    ∧ sameButStyle wideCard el'
    ∧ (∀ prop, prop ≠ "opacity" → prop ≠ "transform" →
               prop ≠ "transition" →
               style el' !! prop = style wideCard !! prop)
    ∧ (card wideCard = true →
       style el' !! "transition"
       = Some "opacity 0.6s ease, transform 0.6s ease")
    ∧ (card wideCard = false →
       wasSeen 2 [ [ {| target := 2; isIntersecting := true |} ] ] = false →
       el' = wideCard).
Proof.
  apply (X18_animation_frame styledCards 2 wideCard
           [ [ {| target := 2; isIntersecting := true |} ] ]).
  reflexivity.
Defined.

End AnimationLife.

(** ** Language Switcher: the document after [setLanguage] *)

Section LanguageLife.

Import Js Storage Dom LanguageManager Observe.

Implicit Types (d : list element) (el : element) (st : state)
  (lang : string) (j : nat).

(** *** Lookups that depend on the classes only *)

Lemma matchingFrom_ext (sel : element → bool) d1 d2 (i : nat) :
  sel <$> d1 = sel <$> d2 → matchingFrom sel i d1 = matchingFrom sel i d2.
Proof.
  revert d2 i. induction d1 as [|el1 d1 IH]; intros [|el2 d2] i H;
    try done.
  simpl in H. injection H as Hsel Hrest. simpl. rewrite Hsel.
  by rewrite (IH d2 (S i) Hrest).
Qed.

Lemma querySelector_ext (sel : element → bool) d1 d2 :
  (∀ j, sel <$> d1 !! j = sel <$> d2 !! j) →
  querySelector sel d1 = querySelector sel d2.
Proof.
  intros H. unfold querySelector, querySelectorAll. f_equal.
  apply matchingFrom_ext. apply list_eq. intros j.
  by rewrite !list_lookup_fmap.
Qed.

(** *** The callback and the indicator, element by element *)

Lemma translate_classList lang el : classList (translate lang el) = classList el.
Proof.
  unfold translate. destruct (getAttribute _ el) as [text|]; [| done].
  destruct (truthy text); [| done].
  destruct (_ || _); [done |]. by destruct (strict_eq _ _).
Qed.

Lemma translate_style lang el : style (translate lang el) = style el.
Proof.
  unfold translate. destruct (getAttribute _ el) as [text|]; [| done].
  destruct (truthy text); [| done].
  destruct (_ || _); [done |]. by destruct (strict_eq _ _).
Qed.

Lemma translate_translate lang el :
  translate lang (translate lang el) = translate lang el.
Proof.
  unfold translate at 1. unfold getAttribute.
  rewrite translate_attrs, translate_tagName.
  unfold translate, getAttribute.
  destruct (attrs el !! _) as [text|]; [| done].
  destruct (truthy text); [| done].
  destruct (_ || _); [done |]. by destruct (strict_eq _ _).
Qed.

Lemma translate_setClassList lang (cl : gset string) el :
  translate lang (setClassList cl el) = setClassList cl (translate lang el).
Proof.
  unfold translate.
  change (getAttribute ("data-" +:+ lang) (setClassList cl el))
    with (getAttribute ("data-" +:+ lang) el).
  change (tagName (setClassList cl el)) with (tagName el).
  destruct (getAttribute _ el) as [text|]; [| done].
  destruct (truthy text); [| done].
  destruct (_ || _); [done |]. by destruct (strict_eq _ _).
Qed.

Lemma translated_classList lang el :
  classList (translated lang el) = classList el.
Proof.
  unfold translated. destruct (localized el); [| done].
  apply translate_classList.
Qed.

Lemma translated_translated lang el :
  translated lang (translated lang el) = translated lang el.
Proof.
  unfold translated. destruct (localized el) eqn:Hloc.
  - rewrite (localized_attrs el) by apply translate_attrs.
    rewrite Hloc. apply translate_translate.
  - by rewrite Hloc.
Qed.

Lemma translated_setClassList lang (cl : gset string) el :
  translated lang (setClassList cl el) = setClassList cl (translated lang el).
Proof.
  unfold translated.
  change (localized (setClassList cl el)) with (localized el).
  destruct (localized el); [apply translate_setClassList | done].
Qed.

Lemma translated_marked lang (a b : nat) j el :
  translated lang (marked lang a b j el) = marked lang a b j (translated lang el).
Proof.
  unfold marked, classList_add, classList_remove.
  destruct (decide (a = j)), (decide (b = j)), (strict_eq lang "fr");
    rewrite ?translated_setClassList; simpl;
    rewrite ?translated_classList; done.
Qed.

Lemma setClassList_eq (cl cl' : gset string) el el' :
  withoutClasses el = withoutClasses el' → cl = cl' →
  setClassList cl el = setClassList cl' el'.
Proof.
  intros H ->. destruct el, el'. unfold withoutClasses, setClassList in *.
  simpl in *. congruence.
Qed.

Lemma marked_marked lang (a b : nat) j el :
  marked lang a b j (marked lang a b j el) = marked lang a b j el.
Proof.
  unfold marked, classList_add, classList_remove.
  destruct (decide (a = j)), (decide (b = j)), (strict_eq lang "fr");
    try done;
    (apply setClassList_eq; [done |]; simpl; apply set_eq; intros x;
     rewrite ?elem_of_difference, ?elem_of_union, ?elem_of_difference,
       ?elem_of_union, ?elem_of_difference, ?elem_of_union,
       ?elem_of_singleton;
     tauto).
Qed.

Lemma marked_other_class cls lang (a b : nat) j el :
  cls ≠ "active" →
  classList_contains cls (marked lang a b j el) = classList_contains cls el.
Proof.
  intros Hne. unfold marked, classList_contains.
  apply bool_decide_ext.
  destruct (decide (a = j)), (decide (b = j)), (strict_eq lang "fr");
    simpl;
    rewrite ?elem_of_difference, ?elem_of_union, ?elem_of_difference,
      ?elem_of_union, ?elem_of_singleton;
    try done; split; try tauto; intuition congruence.
Qed.

Lemma relabelled_other_class cls lang (markers : option nat * option nat) j el :
  cls ≠ "active" →
  classList_contains cls (relabelled lang markers j el)
  = classList_contains cls el.
Proof.
  intros Hne. unfold relabelled.
  destruct markers as [[a|] [b|]];
    rewrite ?marked_other_class by done;
    unfold classList_contains; by rewrite translated_classList.
Qed.

Lemma updateLanguageButton_lookup lang d j :
  updateLanguageButton lang d !! j =
    match markersOf d with
    | (Some a, Some b) => marked lang a b j <$> d !! j
    | _ => d !! j
    end.
Proof.
  unfold updateLanguageButton, markersOf.
  destruct (querySelector _ d) as [a|]; [| done].
  destruct (querySelector _ d) as [b|]; [| done].
  unfold marked.
  destruct (strict_eq lang "fr"); rewrite !update_lookup;
    destruct (decide (a = j)), (decide (b = j)), (d !! j); done.
Qed.

Lemma markersOf_ext d1 d2 :
  (∀ j cls, cls ≠ "active" →
     classList_contains cls <$> d1 !! j = classList_contains cls <$> d2 !! j) →
  markersOf d1 = markersOf d2.
Proof.
  intros H. unfold markersOf. f_equal; apply querySelector_ext; intros j;
    by apply H.
Qed.

Lemma forEach_translate_lookup lang d j :
  forEach (querySelectorAll localized d) (translate lang) d !! j
  = translated lang <$> d !! j.
Proof. apply forEach_querySelectorAll. Qed.

(** The document after [setLanguage], element by element. *)
Lemma setLanguage_doc_lookup lang st j :
  doc (setLanguage lang st) !! j
  = relabelled lang (markersOf (doc st)) j <$> doc st !! j.
Proof.
  unfold setLanguage; simpl. rewrite updateLanguageButton_lookup.
  assert (markersOf (forEach (querySelectorAll localized (doc st))
                       (translate lang) (doc st)) = markersOf (doc st)) as ->.
  { apply markersOf_ext. intros i cls _.
    rewrite forEach_translate_lookup, <- option_fmap_compose.
    destruct (doc st !! i) as [el|]; [| done].
    unfold fmap, option_fmap, option_map, compose. f_equal.
    unfold classList_contains.
    by rewrite (translated_classList lang el). }
  rewrite forEach_translate_lookup. unfold relabelled.
  destruct (markersOf (doc st)) as [[a|] [b|]];
    rewrite <- ?option_fmap_compose; done.
Qed.

Lemma markersOf_setLanguage lang st :
  markersOf (doc (setLanguage lang st)) = markersOf (doc st).
Proof.
  apply markersOf_ext. intros j cls Hne. rewrite setLanguage_doc_lookup.
  rewrite <- option_fmap_compose.
  destruct (doc st !! j) as [el|]; [| done].
  unfold fmap, option_fmap, option_map, compose. f_equal.
  by apply relabelled_other_class.
Qed.

Lemma relabelled_relabelled lang (markers : option nat * option nat) j el :
  relabelled lang markers j (relabelled lang markers j el)
  = relabelled lang markers j el.
Proof.
  unfold relabelled. destruct markers as [[a|] [b|]];
    rewrite ?translated_marked, ?translated_translated, ?marked_marked; done.
Qed.

(** *** The language through a page life *)

Lemma initialLang_nonempty (ls : gmap string string) : initialLang ls ≠ "".
Proof.
  unfold initialLang. destruct (getItem "lang" ls) as [s|]; [| done].
  destruct (truthy s) eqn:Hs; [by apply truthy_true | done].
Qed.

Lemma clickSwitch_cases st :
  clickSwitch st = st
  ∨ clickSwitch st = setLanguage "fr" st
  ∨ clickSwitch st = setLanguage "en" st.
Proof.
  unfold clickSwitch, onSwitchClick.
  destruct (switchAttached st); [| by left].
  destruct (strict_eq _ _); auto.
Qed.

(** X1: at every moment of a page life (after the constructor and any
    number of clicks on the switch), the [currentLang] field, the [lang]
    property of the root element and the stored language are one and the
    same non-empty string. *)
Theorem X1_language_coherent (ls : gmap string string) (root : string)
    d (n : nat) :
  let st := Nat.iter n clickSwitch (construct ls root d) in
  rootLang st = currentLang st
  ∧ getItem "lang" (localStorage st) = Some (currentLang st)
  ∧ currentLang st ≠ "".
Proof.
  induction n as [|n IH]; simpl.
  - split; [done |]. split; [apply getItem_setItem_eq |].
    apply initialLang_nonempty.
  - destruct (clickSwitch_cases (Nat.iter n clickSwitch (construct ls root d)))
      as [-> | [-> | ->]]; [exact IH | |];
      (split; [done |]; split; [apply getItem_setItem_eq | done]).
Qed.

Lemma switchAttached_iter (n : nat) st :
  switchAttached (Nat.iter n clickSwitch st) = switchAttached st.
Proof.
  induction n as [|n IH]; [done |]. simpl.
  destruct (clickSwitch_cases (Nat.iter n clickSwitch st))
    as [-> | [-> | ->]]; done.
Qed.

Lemma clickSwitch_currentLang st :
  switchAttached st = true →
  currentLang (clickSwitch st)
  = if strict_eq (currentLang st) "fr" then "en" else "fr".
Proof.
  intros H. unfold clickSwitch, onSwitchClick. rewrite H.
  by destruct (strict_eq _ _).
Qed.

(** X2: on a page with a switch, the first click sets English when the
    language at load was French and French in every other case, also for
    a stored language that is neither; from then on the language is always
    ["fr"] or ["en"] and every two clicks bring it back. *)
Theorem X2_language_clicks (ls : gmap string string) (root : string) d :
  switchAttached (construct ls root d) = true →
  currentLang (Nat.iter 1 clickSwitch (construct ls root d))
  = (if strict_eq (initialLang ls) "fr" then "en" else "fr")
  ∧ ∀ n, (1 ≤ n)%nat →
      (currentLang (Nat.iter n clickSwitch (construct ls root d)) = "fr"
       ∨ currentLang (Nat.iter n clickSwitch (construct ls root d)) = "en")
      ∧ currentLang (Nat.iter (S (S n)) clickSwitch (construct ls root d))
        = currentLang (Nat.iter n clickSwitch (construct ls root d)).
Proof.
  intros Hsw. split.
  - simpl. by rewrite clickSwitch_currentLang.
  - intros n Hn. destruct n as [|n]; [lia |].
    assert (∀ k, switchAttached (Nat.iter k clickSwitch (construct ls root d))
                 = true) as Hk
      by (intros k; by rewrite switchAttached_iter).
    assert (currentLang (Nat.iter (S n) clickSwitch (construct ls root d)) = "fr"
            ∨ currentLang (Nat.iter (S n) clickSwitch (construct ls root d))
              = "en") as Hcur.
    { simpl. rewrite clickSwitch_currentLang by apply Hk.
      destruct (strict_eq _ _); auto. }
    split; [exact Hcur |].
    change (Nat.iter (S (S (S n))) clickSwitch (construct ls root d))
      with (clickSwitch (clickSwitch
              (Nat.iter (S n) clickSwitch (construct ls root d)))).
    rewrite clickSwitch_currentLang.
    2:{ change (clickSwitch (Nat.iter (S n) clickSwitch (construct ls root d)))
          with (Nat.iter (S (S n)) clickSwitch (construct ls root d)).
        apply Hk. }
    rewrite clickSwitch_currentLang by apply Hk.
    by destruct Hcur as [-> | ->].
Qed.

Lemma X2_language_clicks_witness :
  currentLang (Nat.iter 1 clickSwitch (construct {[ "lang" := "de" ]} "" bilingual))
  = "fr"
  ∧ currentLang (Nat.iter 4 clickSwitch
                   (construct {[ "lang" := "de" ]} "" bilingual))
    = currentLang (Nat.iter 2 clickSwitch
                     (construct {[ "lang" := "de" ]} "" bilingual)).
Proof.
  assert (switchAttached (construct {[ "lang" := "de" ]} "" bilingual) = true)
    as Hsw by (vm_compute; reflexivity).
  destruct (X2_language_clicks {[ "lang" := "de" ]} "" bilingual Hsw)
    as [H1 Hn].
  split; [exact H1 |]. apply (Hn 2). lia.
Defined.

(** *** What the component writes in the store *)

(** X3: the component writes one key of the store: after the constructor
    and any number of clicks on the switch, every key other than [lang]
    holds what it held before the page loaded. *)
Theorem X3_language_store_frame (ls : gmap string string) (root : string)
    d (n : nat) (key : string) :
  key ≠ "lang" →
  getItem key (localStorage (Nat.iter n clickSwitch (construct ls root d)))
  = getItem key ls.
Proof.
  intros Hne. induction n as [|n IH]; simpl.
  - by apply getItem_setItem_ne.
  - destruct (clickSwitch_cases (Nat.iter n clickSwitch (construct ls root d)))
      as [-> | [-> | ->]]; [exact IH | |];
      simpl; by rewrite getItem_setItem_ne.
Qed.

Lemma X3_language_store_frame_witness :
  getItem "theme"
    (localStorage
       (Nat.iter 3 clickSwitch
          (construct {[ "theme" := "dark"; "lang" := "en" ]} "" bilingual)))
  = getItem "theme" ({[ "theme" := "dark"; "lang" := "en" ]} : gmap string string).
Proof.
  apply (X3_language_store_frame {[ "theme" := "dark"; "lang" := "en" ]} ""
           bilingual 3 "theme").
  discriminate.
Defined.

(** *** Setting the same language again *)

Lemma state_eq (st1 st2 : state) :
  currentLang st1 = currentLang st2 →
  localStorage st1 = localStorage st2 →
  rootLang st1 = rootLang st2 →
  doc st1 = doc st2 →
  switchAttached st1 = switchAttached st2 →
  st1 = st2.
Proof. destruct st1, st2; simpl; congruence. Qed.

(** X4: [setLanguage] is idempotent: setting the language that was just
    set changes nothing, neither in the document nor in the store. *)
Theorem X4_setLanguage_idempotent lang st :
  setLanguage lang (setLanguage lang st) = setLanguage lang st.
Proof.
  apply state_eq; try done.
  - simpl. apply setItem_setItem.
  - apply list_eq. intros j.
    rewrite (setLanguage_doc_lookup lang (setLanguage lang st)).
    rewrite markersOf_setLanguage, setLanguage_doc_lookup.
    rewrite <- option_fmap_compose.
    destruct (doc st !! j) as [el|]; [| done].
    unfold fmap, option_fmap, option_map, compose. f_equal.
    apply relabelled_relabelled.
Qed.

(** *** The indicator *)

(** X5: [updateLanguageButton] looks the two markers up in the document
    as it is when it runs.  When it finds them and they are two elements,
    it leaves exactly one of them with the class [active]: the marker
    [.lang-fr] when the language is ["fr"], the marker [.lang-en] for
    every other language.  When either marker is missing, it changes
    nothing. *)
Theorem X5_indicator_update lang d :
  (∀ a b : nat,
     querySelector (byClass "lang-fr") d = Some a →
     querySelector (byClass "lang-en") d = Some b →
     a ≠ b →
     hasClass "active" a (updateLanguageButton lang d) = strict_eq lang "fr"
     ∧ hasClass "active" b (updateLanguageButton lang d)
       = negb (strict_eq lang "fr"))
  ∧ (querySelector (byClass "lang-fr") d = None
     ∨ querySelector (byClass "lang-en") d = None →
     updateLanguageButton lang d = d).
Proof.
  split.
  - intros a b Ha Hb Hne.
    destruct (querySelector_Some _ _ _ Ha) as (ea & Hea & _).
    destruct (querySelector_Some _ _ _ Hb) as (eb & Heb & _).
    unfold hasClass. rewrite !updateLanguageButton_lookup.
    unfold markersOf. rewrite Ha, Hb, Hea, Heb. simpl.
    unfold marked.
    rewrite !(decide_True (P := a = a)) by done.
    rewrite !(decide_True (P := b = b)) by done.
    rewrite (decide_False (P := b = a)) by done.
    rewrite (decide_False (P := a = b)) by done.
    unfold classList_contains.
    destruct (strict_eq lang "fr"); simpl; split.
    + apply bool_decide_eq_true_2. rewrite elem_of_union, elem_of_singleton.
      by left.
    + apply bool_decide_eq_false_2. rewrite elem_of_difference, elem_of_singleton.
      tauto.
    + apply bool_decide_eq_false_2. rewrite elem_of_difference, elem_of_singleton.
      tauto.
    + apply bool_decide_eq_true_2. rewrite elem_of_union, elem_of_singleton.
      by left.
  - intros Hmissing. unfold updateLanguageButton.
    destruct Hmissing as [-> | ->]; [done |].
    by destruct (querySelector _ d).
Qed.

Lemma X5_indicator_update_witness :
  hasClass "active" 1 (updateLanguageButton "en" bilingual) = false
  ∧ hasClass "active" 2 (updateLanguageButton "en" bilingual) = true.
Proof.
  apply (proj1 (X5_indicator_update "en" bilingual) 1 2);
    [reflexivity | reflexivity | discriminate].
Defined.

End LanguageLife.

(** ** The page load *)

Section PageLoad.

Import Js Storage Dom Observe Page.

Implicit Types (e : ThemeManager.env) (b : browser) (el : element) (j : nat).

Lemma getInitialTheme_setItem_lang e (lang : string) (ls : gmap string string) :
  ThemeManager.getInitialTheme e (setItem "lang" lang ls)
  = ThemeManager.getInitialTheme e ls.
Proof.
  unfold ThemeManager.getInitialTheme.
  by rewrite getItem_setItem_ne.
Qed.

Lemma loaded_localStorage e b :
  localStorage (loaded e b)
  = setItem "theme" (ThemeManager.getInitialTheme e (localStorage b))
      (setItem "lang" (LanguageManager.initialLang (localStorage b))
         (localStorage b)).
Proof.
  unfold loaded, onDOMContentLoaded; simpl.
  by rewrite getInitialTheme_setItem_lang.
Qed.

Lemma initialLang_stored (ls : gmap string string) (lang : string) :
  getItem "lang" ls = Some lang → lang ≠ "" →
  LanguageManager.initialLang ls = lang.
Proof.
  intros H Hne%truthy_true. unfold LanguageManager.initialLang.
  by rewrite H, Hne.
Qed.

(** X19: whatever the store held, after the page has loaded it holds
    the language and the theme the constructors resolved, and every other
    key as before: the two components do not disturb each other's key.
    Loading a page again on the resulting store, under any operating-system
    signal, resolves the same language and theme and leaves the store as it
    is. *)
Theorem X19_load_store e b :
  getItem "lang" (localStorage (loaded e b))
  = Some (LanguageManager.initialLang (localStorage b))
  ∧ getItem "theme" (localStorage (loaded e b))
    = Some (ThemeManager.getInitialTheme e (localStorage b))
  ∧ (∀ key, key ≠ "lang" → key ≠ "theme" →
       getItem key (localStorage (loaded e b)) = getItem key (localStorage b))
  ∧ (∀ e' b', localStorage b' = localStorage (loaded e b) →
       localStorage (loaded e' b') = localStorage (loaded e b)).
Proof.
  rewrite loaded_localStorage.
  set (lang := LanguageManager.initialLang (localStorage b)).
  set (theme := ThemeManager.getInitialTheme e (localStorage b)).
  assert (getItem "lang"
            (setItem "theme" theme (setItem "lang" lang (localStorage b)))
          = Some lang) as Hlang.
  { rewrite getItem_setItem_ne by done. apply getItem_setItem_eq. }
  assert (getItem "theme"
            (setItem "theme" theme (setItem "lang" lang (localStorage b)))
          = Some theme) as Htheme by apply getItem_setItem_eq.
  split; [exact Hlang |]. split; [exact Htheme |]. split.
  - intros key H1 H2. by rewrite !getItem_setItem_ne.
  - intros e' b' Hb'. rewrite loaded_localStorage, Hb'.
    rewrite (initialLang_stored _ lang Hlang)
      by apply initialLang_nonempty.
    rewrite (getInitialTheme_saved e' _ theme Htheme)
      by apply getInitialTheme_truthy.
    unfold setItem in *. unfold getItem in *.
    rewrite (insert_id _ "lang" lang) by done.
    by rewrite insert_id.
Qed.

Lemma X19_load_store_witness :
  localStorage
    (loaded darkEnv
       {| localStorage := localStorage (loaded ThemeManager.lightEnv firstVisit);
          rootLang := "";
          rootAttrs := ∅;
          bodyClasses := ∅;
          doc := [] |})
  = localStorage (loaded ThemeManager.lightEnv firstVisit).
Proof.
  apply (proj2 (proj2 (proj2 (X19_load_store ThemeManager.lightEnv firstVisit)))
           darkEnv).
  reflexivity.
Defined.

End PageLoad.
